(** * unionize: layout computation and union generation

    A shallow embedding of the [unionize] command (package [main]):
    [FindUnion], [UnionSize], [UnionFields], [GetImports], [qual],
    [StringUnion] and [main], together with the usage example of the
    generated union.

    Conventions.
    - Go's [int64] is a [Z] kept in the range [-2^63, 2^63) by [Int64.wrap];
      [%] and [/] truncate towards zero and panic on a zero divisor.
    - A run-time panic is the [Panic] outcome of the [result] monad.
    - A [*types.Package] is an [option Package]; [None] is the nil pointer and
      two non-nil pointers are equal when they hold the same address.
    - [main] runs in a writer monad that records what is written to the
      standard output, to the standard error and to files, and that stops at
      [os.Exit] or at a panic. *)

From Stdlib Require Import HexString.
From stdpp Require Import base numbers list strings gmap pretty.

Set Warnings "-register-all".
Local Open Scope Z_scope.

(** ** Run-time panics *)

Inductive result (A : Type) : Type :=
  | Ok (a : A)
  | Panic (msg : string).
Arguments Ok {A} a.
Arguments Panic {A} msg.

Global Instance result_ret : MRet result := λ A a, Ok a.
Global Instance result_bind : MBind result := λ A B f m,
  match m with
  | Ok a => f a
  | Panic msg => Panic msg
  end.

Definition divide_error : string := "runtime error: integer divide by zero".
Definition nil_error : string :=
  "runtime error: invalid memory address or nil pointer dereference".

(** ** int64 arithmetic *)

Module Int64.
Definition min_int : Z := - 2 ^ 63.
Definition max_int : Z := 2 ^ 63 - 1.

Definition in_range (z : Z) : Prop := min_int ≤ z ≤ max_int.

Definition wrap (z : Z) : Z := (z + 2 ^ 63) `mod` 2 ^ 64 - 2 ^ 63.

Definition add (a b : Z) : Z := wrap (a + b).
Definition sub (a b : Z) : Z := wrap (a - b).

(** [a % b] *)
Definition rem (a b : Z) : result Z :=
  if decide (b = 0) then Panic divide_error else Ok (a `rem` b).

(** [a / b] *)
Definition quo (a b : Z) : result Z :=
  if decide (b = 0) then Panic divide_error else Ok (wrap (a `quot` b)).
End Int64.

(** ** go/types: the part of the type representation the tool inspects *)

Record Package : Type := {
  pkg_addr : positive;
  pkg_path : string;
  pkg_name : string;
}.

(** Pointer comparison [p == q] on [*types.Package]. *)
Definition pkg_eqb (p q : option Package) : bool :=
  match p, q with
  | None, None => true
  | Some a, Some b => bool_decide (pkg_addr a = pkg_addr b)
  | _, _ => false
  end.

(** [Package.Path], a method on the pointer: it dereferences its receiver. *)
Definition Path (p : option Package) : result string :=
  match p with
  | Some a => Ok (pkg_path a)
  | None => Panic nil_error
  end.

Inductive BasicKind : Type :=
  | Bool | Int | Int8 | Int16 | Int32 | Int64 | Uint | Uint8 | Uint16
  | Uint32 | Uint64 | Uintptr | Float32 | Float64 | Complex64 | Complex128
  | String_ | UnsafePointer.

Inductive ChanDir : Type := SendRecv | SendOnly | RecvOnly.

(** [types.Type].  A [Named] type carries its [*types.TypeName] object (name
    and package, nil for the universe) and its underlying type; a [Struct]
    carries its fields, each a [*types.Var] with a name and a type. *)
Inductive Type_ : Type :=
  | Basic (kind : BasicKind)
  | Named (obj_name : string) (obj_pkg : option Package) (underlying : Type_)
  | Pointer (elem : Type_)
  | Slice (elem : Type_)
  | Array (len : Z) (elem : Type_)
  | Map (key elem : Type_)
  | Chan (dir : ChanDir) (elem : Type_)
  | Struct (fields : list (string * Type_))
  | Interface (methods : list string)
  | Signature (params results : list Type_).

Definition Var : Type := (string * Type_)%type.
Definition var_name (v : Var) : string := v.1.
Definition var_type (v : Var) : Type_ := v.2.

(** [Type.Underlying] *)
Definition Underlying (t : Type_) : Type_ :=
  match t with
  | Named _ _ u => u
  | _ => t
  end.

(** [types.Sizes]: the size and alignment oracle handed to [UnionSize]. *)
Record Sizes : Type := {
  Sizeof : Type_ → Z;
  Alignof : Type_ → Z;
}.

(** ** UnionSize *)

(** The scan of the fields: one iteration of the loop per field. *)
Definition scan_step (lookup : Sizes) (acc : Z * Z) (f : Var) : Z * Z :=
  let '(maxsz, maxalign) := acc in
  let sz := Sizeof lookup (var_type f) in
  let align := Alignof lookup (var_type f) in
  let maxsz := if bool_decide (sz > maxsz) then sz else maxsz in
  let maxalign := if bool_decide (align > maxalign) then align else maxalign in
  (maxsz, maxalign).

Definition scan (lookup : Sizes) (fields : list Var) : Z * Z :=
  foldl (scan_step lookup) (0, 0) fields.

(** [UnionSize] returns the size and alignment necessary for the underlying
    union buffer given the fields of the template struct. *)
Definition UnionSize (s : list Var) (lookup : Sizes) : result (Z * Z) :=
  let '(maxsz, maxalign) := scan lookup s in
  r ← Int64.rem maxsz maxalign;
  if bool_decide (r ≠ 0) then
    r' ← Int64.rem maxsz maxalign;
    mret (Int64.add (Int64.sub maxsz r') maxalign, maxalign)
  else mret (maxsz, maxalign).

(** ** Field, UnionFields, GetImports *)

Record Field : Type := {
  name : string;
  typ : Type_;
}.

Definition UnionFields (s : list Var) : list Field :=
  (λ f, {| name := var_name f; typ := var_type f |}) <$> s.

Definition dquote : string := String (Ascii.ascii_of_nat 34) EmptyString.

(** One iteration of the loop of [GetImports]. *)
Definition imports_step (pkg : option Package) (imports : list string)
    (f : Field) : result (list string) :=
  match typ f with
  | Named _ obj_pkg _ =>
      if negb (pkg_eqb pkg obj_pkg) then
        p ← Path obj_pkg;
        mret (imports ++ [dquote +:+ p +:+ dquote])
      else mret imports
  | _ => mret imports
  end.

Fixpoint imports_loop (pkg : option Package) (imports : list string)
    (fields : list Field) : result (list string) :=
  match fields with
  | [] => mret imports
  | f :: fields' =>
      imports' ← imports_step pkg imports f;
      imports_loop pkg imports' fields'
  end.

(** [GetImports] returns the names of any packages that are needed to access
    the types in the union fields. *)
Definition GetImports (fields : list Field) (pkg : option Package)
    : result (list string) :=
  imports_loop pkg [] fields.

(** ** StringUnion *)

(** I believe there are no types in Go with alignment 16. *)
Definition alignments : gmap Z string :=
  {[ 1 := "uint8"; 2 := "uint16"; 4 := "uint32"; 8 := "uint64" ]}.

(** A [types.Qualifier], which the type printer applies to the non-nil
    package of a defined type; [None] is the nil function. *)
Definition Qualifier : Type := option (Package → string).

Definition qual (pkg : option Package) : Qualifier :=
  match pkg with
  | None => None
  | Some _ =>
      Some (λ other,
        if pkg_eqb pkg (Some other) then EmptyString else pkg_name other)
  end.

(** The first two statements of [StringUnion]: the element type of the
    backing array, [alignments[align]] (the empty string for a missing key),
    and its element count, [size /= align]. *)
Definition storage (size align : Z) : result (string * Z) :=
  let typ := default EmptyString (alignments !! align) in
  size ← Int64.quo size align;
  mret (typ, size).

(** ** The process: output streams, files and exit *)

Definition nl : string := String (Ascii.ascii_of_nat 10) EmptyString.
Definition tab : string := String (Ascii.ascii_of_nat 9) EmptyString.

(** What a run does to the outside: a write to the standard output, to the
    standard error, or a call of [ioutil.WriteFile] with the error it
    returned, if any. *)
Inductive event : Type :=
  | Stdout (s : string)
  | Stderr (s : string)
  | FileWrite (file data : string) (perm : Z) (err : option string).

(** How a run stops early: [os.Exit] or a run-time panic.  After a panic
    the Go runtime reports the message and a stack trace on the standard
    error and exits with code 2; [Crash] stands for that report, which is
    not an event of the trace: the trace holds what the program itself
    writes. *)
Inductive status : Type :=
  | Exit (code : Z)
  | Crash (msg : string).

Definition IO (A : Type) : Type := (list event * (A + status))%type.

Global Instance IO_ret : MRet IO := λ A a, ([], inl a).
Global Instance IO_bind : MBind IO := λ A B f m,
  match m with
  | (t, inl a) => let '(t', r) := f a in (t ++ t', r)
  | (t, inr st) => (t, inr st)
  end.

Definition emit (e : event) : IO () := ([e], inl ()).
Definition print (s : string) : IO () := emit (Stdout s).
Definition println (s : string) : IO () := emit (Stdout (s +:+ nl)).
Definition eprint (s : string) : IO () := emit (Stderr s).
Definition exit {A} (code : Z) : IO A := ([], inr (Exit code)).

Definition run_result {A} (r : result A) : IO A :=
  match r with
  | Ok a => mret a
  | Panic msg => ([], inr (Crash msg))
  end.

Definition when (b : bool) (m : IO ()) : IO () := if b then m else mret ().

(** [l[i]] *)
Definition index {A} (l : list A) (i : nat) : IO A :=
  match l !! i with
  | Some a => mret a
  | None => ([], inr (Crash "runtime error: index out of range"))
  end.

(** The exit code of the process: 0 when [main] returns, the argument of
    [os.Exit], and 2 after a panic. *)
Definition exit_code (r : () + status) : Z :=
  match r with
  | inl _ => 0
  | inr (Exit code) => code
  | inr (Crash _) => 2
  end.

(** ** The loaded package and FindUnion *)

(** A [types.Object] with its [Name()] and [Type()]. *)
Record Object : Type := {
  object_name : string;
  object_type : Type_;
}.

(** A [packages.Package]: [TypesInfo.Defs] as the sequence of objects in the
    order the loop of [FindUnion] meets them (a nil object is [None]),
    [Types], [TypesSizes], and the errors [packages.PrintErrors] reports for
    the package and its imports. *)
Record LoadedPackage : Type := {
  Defs : list (option Object);
  Types : option Package;
  TypesSizes : Sizes;
  Errors : list string;
}.

Fixpoint find_struct (defs : list (option Object)) (name : string)
    : option (list Var) :=
  match defs with
  | [] => None
  | d :: defs' =>
      match d with
      | Some o =>
          if bool_decide (object_name o = name) then
            match Underlying (object_type o) with
            | Struct s => Some s
            | _ => find_struct defs' name
            end
          else find_struct defs' name
      | None => find_struct defs' name
      end
  end.

(** [FindUnion] finds the struct that should be used as a template for the
    union; [None] is the nil result. *)
Definition FindUnion (pkg : LoadedPackage) (name : string)
    : option (list Var) :=
  find_struct (Defs pkg) name.

(** [packages.PrintErrors]: prints the errors to the standard error and
    returns their number. *)
Definition PrintErrors (pkgs : list LoadedPackage) : IO Z :=
  let errs := concat (Errors <$> pkgs) in
  foldr (λ e k, eprint (e +:+ nl);; k) (mret (Z.of_nat (length errs))) errs.

(** [strings.Join] *)
Fixpoint Join (elems : list string) (sep : string) : string :=
  match elems with
  | [] => EmptyString
  | [e] => e
  | e :: elems' => e +:+ sep +:+ Join elems' sep
  end.

(** What a run is given: the flags set on the command line and the remaining
    arguments ([flag.Args()]), the outcome of [packages.Load] for a pattern
    (the packages and the error, if any), the outcome of [format.Source]
    (the formatted text or an error), the error [ioutil.WriteFile] returns,
    if any, and the text [flag.PrintDefaults] prints. *)
Record Env : Type := {
  flags : gmap string string;
  args : list string;
  packages_Load : string → list LoadedPackage * option string;
  format_Source : string → string + string;
  ioutil_WriteFile : string → string → Z → option string;
  flag_PrintDefaults : string;
}.

(** [flag.String(name, value, usage)] after [flag.Parse()]. *)
Definition flag_String (env : Env) (name value : string) : string :=
  default value (flags env !! name).

Definition warning (align : Z) : string :=
  "Warning: alignment of " +:+ pretty align
  +:+ " cannot be satisfied with a primitive type, using alignment of "
  +:+ pretty 8 +:+ " instead" +:+ nl.

(** The alignment fallback of [main]: an alignment that is no key of
    [alignments] is reported with [fmt.Printf] and replaced by 8. *)
Definition fallback (align : Z) : IO Z :=
  match alignments !! align with
  | Some _ => mret align
  | None => print (warning align);; mret 8
  end.

Section Generator.
(** The format strings of the generator are declared in a file of the
    package that is not part of the sources at hand.  Each is taken applied
    by [fmt.Sprintf] to its arguments; [header] is a plain string.
    [types.TypeString] is the type printer of go/types. *)
Variable header : string.
Variable packageTemplate : string → string.
Variable importTemplate : string → string.
Variable structTemplate : string → Z → string → string.
Variable fieldTemplate : string → string → string → string.
Variable TypeString : Type_ → Qualifier → string.

(** [StringUnion] builds the source code for the union. *)
Definition StringUnion (name : string) (size align : Z)
    (fields : list Field) (pkg : option Package) : result string :=
  '(typ, size) ← storage size align;
  let s := structTemplate name size typ in
  mret (foldl (λ s '(Build_Field fname ftyp),
                 s +:+ fieldTemplate name fname (TypeString ftyp (qual pkg)))
              s fields).

Definition Usage (env : Env) : IO () :=
  println "Usage of unionize:";;
  println (tab +:+ "unionize [flags] T [directory]");;
  println (tab +:+ "unionize [flags] T files...");;
  println "For more information, see:";;
  println (tab +:+ "https://github.com/zyedidia/unionize");;
  println "Flags:";;
  eprint (flag_PrintDefaults env).

(** [main] from the return of [flag.Parse] up to the filling of the buffer:
    the result is [buf.String()].  A run that ends inside [flag.Parse] (help
    asked for, or a flag that is not defined) has no [Env]. *)
Definition generate (env : Env) : IO string :=
  let flagPkg := flag_String env "pkg" "main" in
  let flagUnion := flag_String env "otype" EmptyString in
  when (bool_decide (length (args env) ≠ 2%nat))
    (eprint ("Invalid number of arguments: need union and package." +:+ nl);;
     Usage env;;
     exit 1);;
  arg1 ← index (args env) 1;
  let '(pkgs, err) := packages_Load env arg1 in
  match err with
  | Some e => eprint ("load: " +:+ e +:+ nl);; exit 1
  | None =>
      n ← PrintErrors pkgs;
      when (bool_decide (n > 0)) (exit 1);;
      when (bool_decide (Z.of_nat (length pkgs) ≤ 0))
        (eprint ("Error: no package found" +:+ nl);; exit 1);;
      pkg ← index pkgs 0;
      arg0 ← index (args env) 0;
      match FindUnion pkg arg0 with
      | None =>
          eprint ("Error: could not find struct to unionize" +:+ nl);;
          exit 1
      | Some strct =>
          let unionName :=
            if bool_decide (flagUnion ≠ EmptyString) then flagUnion
            else arg0 +:+ "Union" in
          '(sz, align) ← run_result (UnionSize strct (TypesSizes pkg));
          align ← fallback align;
          let fields := UnionFields strct in
          imports ← run_result (GetImports fields (Types pkg));
          body ← run_result
                   (StringUnion unionName sz align fields (Types pkg));
          mret (header
                +:+ packageTemplate flagPkg
                +:+ importTemplate (Join imports nl)
                +:+ body)
      end
  end.

(** The end of [main]: formatting and output of the buffer. *)
Definition finish (env : Env) (buf : string) : IO () :=
  let flagFile := flag_String env "output" EmptyString in
  match format_Source env buf with
  | inr e =>
      print buf;;
      eprint ("Error with union generation:" +:+ nl);;
      eprint ("format: " +:+ e +:+ nl);;
      exit 1
  | inl output =>
      if bool_decide (flagFile ≠ EmptyString) then
        emit (FileWrite flagFile output 438
                (ioutil_WriteFile env flagFile output 438))
      else print output
  end.

Definition main (env : Env) : IO () :=
  buf ← generate env;
  finish env buf.
End Generator.

(** ** The generated union and the example program *)

(** Modelled from the spec: the union type that the generated accessors work
    on; the field template that prints them is not among the sources.  The
    backing storage is [elementCount] elements of a primitive type whose size
    and alignment are [elementSize]; on a little-endian target it is the
    sequence of its bytes, lowest address first.  Every field is at offset 0:
    a read reinterprets the first bytes of the storage as a value of the
    field's type, and a write stores a value of the field's type over these
    bytes and leaves the other bytes as they are.  No field is wider than
    the storage, whose size is at least the size of every field. *)
Module Union.
Record t : Type := {
  elementSize : Z;
  data : list Z;
}.

(** The zero value of the union type. *)
Definition zero (elementSize elementCount : Z) : t :=
  {| elementSize := elementSize;
     data := replicate (Z.to_nat (elementCount * elementSize)) 0 |}.

Fixpoint le_bytes (width : nat) (v : Z) : list Z :=
  match width with
  | O => []
  | S width' => Z.land v 255 :: le_bytes width' (Z.shiftr v 8)
  end.

Fixpoint le_value (bytes : list Z) : Z :=
  match bytes with
  | [] => 0
  | b :: bytes' => Z.lor b (Z.shiftl (le_value bytes') 8)
  end.

(** The accessor of a field of [width] bytes. *)
Definition Get (width : nat) (u : t) : Z := le_value (take width (data u)).

(** The mutator of a field of [width] bytes. *)
Definition Put (width : nat) (v : Z) (u : t) : t :=
  {| elementSize := elementSize u;
     data := le_bytes width v ++ drop width (data u) |}.

(** [unsafe.Sizeof] and [unsafe.Alignof] of a union value. *)
Definition Sizeof (u : t) : Z := Z.of_nat (length (data u)).
Definition Alignof (u : t) : Z := elementSize u.
End Union.

(** The example: [struct { i1 uint32; i2 uint16 }] as the template, and the
    program that uses the union generated from it. *)
Definition exampleTemplate : list Var :=
  [("i1", Basic Uint32); ("i2", Basic Uint16)].

Module Example.
(** [var u TemplateUnion]: the zero value of the type generated from
    [exampleTemplate], its storage laid out as [main] has it. *)
Definition TemplateUnion (lookup : Sizes) : result Union.t :=
  '(sz, align) ← UnionSize exampleTemplate lookup;
  '(_, count) ← storage sz align;
  mret (Union.zero align count).

Definition i1 (lookup : Sizes) : Union.t → Z :=
  Union.Get (Z.to_nat (Sizeof lookup (Basic Uint32))).
Definition i1Put (lookup : Sizes) : Z → Union.t → Union.t :=
  Union.Put (Z.to_nat (Sizeof lookup (Basic Uint32))).
Definition i2 (lookup : Sizes) : Union.t → Z :=
  Union.Get (Z.to_nat (Sizeof lookup (Basic Uint16))).
Definition i2Put (lookup : Sizes) : Z → Union.t → Union.t :=
  Union.Put (Z.to_nat (Sizeof lookup (Basic Uint16))).

Definition main (lookup : Sizes) : IO () :=
  u ← run_result (TemplateUnion lookup);
  let u := i1Put lookup 0xdeadbeef u in
  let u := i2Put lookup 0xface u in
  print ("i1: " +:+ HexString.of_Z (i1 lookup u) +:+ nl);;
  print ("i2: " +:+ HexString.of_Z (i2 lookup u) +:+ nl);;
  println ("size: " +:+ pretty (Union.Sizeof u));;
  println ("align: " +:+ pretty (Union.Alignof u)).
End Example.
(** ** A concrete size oracle

    The tool only consumes a [types.Sizes] through its two methods, and the
    results below hold for every oracle.  [stdSizes] follows the layout rules
    of [types.StdSizes] with a word size and a maximal alignment of 8; it is
    used to run the results on concrete templates. *)

Definition basicSize (k : BasicKind) : Z :=
  match k with
  | Bool | Int8 | Uint8 => 1
  | Int16 | Uint16 => 2
  | Int32 | Uint32 | Float32 => 4
  | Int | Int64 | Uint | Uint64 | Uintptr | Float64 | Complex64
  | UnsafePointer => 8
  | Complex128 | String_ => 16
  end.

Definition basicAlign (k : BasicKind) : Z :=
  match k with
  | Complex64 => 4
  | Complex128 | String_ => 8
  | _ => basicSize k
  end.

Definition align_up (x a : Z) : Z := (x + a - 1) `quot` a * a.

Fixpoint stdLayout (t : Type_) : Z * Z :=
  match t with
  | Basic k => (basicSize k, basicAlign k)
  | Named _ _ u => stdLayout u
  | Pointer _ | Map _ _ | Chan _ _ | Signature _ _ => (8, 8)
  | Slice _ => (24, 8)
  | Interface _ => (16, 8)
  | Array n e =>
      let '(sz, al) := stdLayout e in
      (if bool_decide (n ≤ 0) then 0 else align_up sz al * (n - 1) + sz, al)
  | Struct fs =>
      (fix go (fs : list (string * Type_)) (off al : Z) : Z * Z :=
         match fs with
         | [] => (off, al)
         | f :: fs' =>
             let '(sz, a) := stdLayout f.2 in
             go fs' (align_up off a + sz) (Z.max al a)
         end) fs 0 1
  end.

Definition stdSizes : Sizes :=
  {| Sizeof t := (stdLayout t).1; Alignof t := (stdLayout t).2 |}.

(** An oracle that gives every type the same size and alignment, for
    alignments that no primitive type has. *)
Definition constSizes (sz al : Z) : Sizes :=
  {| Sizeof _ := sz; Alignof _ := al |}.

(** ** Vocabulary of the statements on UnionSize *)

Definition sizes_of (lookup : Sizes) (s : list Var) : list Z :=
  (λ f, Sizeof lookup (var_type f)) <$> s.
Definition aligns_of (lookup : Sizes) (s : list Var) : list Z :=
  (λ f, Alignof lookup (var_type f)) <$> s.

(** [m] is the maximum of the (non-empty) list [l]. *)
Definition is_max (m : Z) (l : list Z) : Prop :=
  m ∈ l ∧ Forall (λ x, x ≤ m) l.

Global Instance is_max_dec m l : Decision (is_max m l).
Proof. unfold is_max. apply _. Defined.

(** [m] rounded up to the next multiple of [a], as [UnionSize] writes it. *)
Definition round_up (m a : Z) : Z :=
  if decide (m `rem` a = 0) then m else m - m `rem` a + a.

(** A template whose largest field is not its most aligned one:
    [struct { a [3]uint16; b uint32 }], of sizes 6 and 4 and alignments 2
    and 4. *)
Definition oddTemplate : list Var :=
  [("a", Array 3 (Basic Uint16)); ("b", Basic Uint32)].

(** A template whose first field is a byte array of the largest length an
    int64 can hold: [struct { a [1<<63 - 1]uint8; b uint64 }]. *)
Definition hugeTemplate : list Var :=
  [("a", Array (2 ^ 63 - 1) (Basic Uint8)); ("b", Basic Uint64)].

(** ** Vocabulary of the statements on GetImports *)

(** The package a field makes the generated file import: the package of its
    type when that type is a defined type of another package. *)
Definition external (pkg : option Package) (f : Field) : option Package :=
  match typ f with
  | Named _ (Some p) _ => if pkg_eqb pkg (Some p) then None else Some p
  | _ => None
  end.

Definition import_line (p : Package) : string :=
  dquote +:+ pkg_path p +:+ dquote.

(** The field makes the generated file import the package with the path of
    [p]. *)
Definition refers (pkg : option Package) (p : Package) (f : Field) : Prop :=
  import_line <$> external pkg f = Some (import_line p).

Global Instance refers_dec pkg p f : Decision (refers pkg p f).
Proof. unfold refers. apply _. Defined.

(** The field's type is not a defined type of the universe scope (such as
    [error]), whose object has no package. *)
Definition owned (f : Field) : Prop :=
  match typ f with
  | Named _ None _ => False
  | _ => True
  end.

Global Instance owned_dec f : Decision (owned f).
Proof. unfold owned. destruct (typ f) as [|? [?|] ?| | | | | | | |]; apply _. Defined.

(** The type is a pointer, slice, array, map or channel type. *)
Definition composite (t : Type_) : Prop :=
  match t with
  | Pointer _ | Slice _ | Array _ _ | Map _ _ | Chan _ _ => True
  | _ => False
  end.

Definition is_named (t : Type_) : bool :=
  match t with
  | Named _ _ _ => true
  | _ => false
  end.

Definition mainPkg : Package :=
  {| pkg_addr := 1; pkg_path := "example.com/app"; pkg_name := "main" |}.
Definition xPkg : Package :=
  {| pkg_addr := 2; pkg_path := "pkg/x"; pkg_name := "x" |}.

(** Two fields whose types both come from the package ["pkg/x"]. *)
Definition twoFromX : list Field :=
  [ {| name := "a"; typ := Named "A" (Some xPkg) (Basic Uint32) |};
    {| name := "b"; typ := Named "B" (Some xPkg) (Basic Uint16) |} ].

(** A local type, an external type, a primitive and the external type again. *)
Definition mixedFields : list Field :=
  [ {| name := "l"; typ := Named "Local" (Some mainPkg) (Basic Int) |};
    {| name := "a"; typ := Named "A" (Some xPkg) (Basic Uint32) |};
    {| name := "n"; typ := Basic Uint64 |};
    {| name := "b"; typ := Named "B" (Some xPkg) (Basic Uint16) |} ].

(** A pointer to a type of the package ["pkg/x"]. *)
Definition ptrField : Field :=
  {| name := "p"; typ := Pointer (Named "A" (Some xPkg) (Basic Uint32)) |}.

(** ** Vocabulary of the statements on StringUnion and main *)

(** The alignment [main] passes on: the computed one when it is a key of
    [alignments], 8 otherwise. *)
Definition used_alignment (align : Z) : Z :=
  if decide (align ∈ [1; 2; 4; 8]) then align else 8.

(** [a] is a power of two, as the alignment of every Go type is. *)
Definition is_pow2 (a : Z) : Prop := ∃ k, 0 ≤ k ∧ a = 2 ^ k.


(** The name [main] gives the union: the value of [-otype] when it is not
    empty, the first argument followed by [Union] otherwise. *)
Definition unionName (env : Env) (T : string) : string :=
  if bool_decide (flag_String env "otype" EmptyString ≠ EmptyString)
  then flag_String env "otype" EmptyString
  else T +:+ "Union".

(** Stand-ins for the format strings and for the type printer, to run [main]
    on concrete inputs; the results hold for every choice of them. *)
Definition exHeader : string := "// Code generated by unionize." +:+ nl.
Definition exPackage (pkg : string) : string := "package " +:+ pkg +:+ nl.
Definition exImport (imports : string) : string :=
  "import (" +:+ nl +:+ imports +:+ nl +:+ ")" +:+ nl.
Definition exStruct (name : string) (size : Z) (typ : string) : string :=
  "type " +:+ name +:+ " struct { data [" +:+ pretty size +:+ "]" +:+ typ
  +:+ " }" +:+ nl.
Definition exField (name fname ftyp : string) : string :=
  "func (u *" +:+ name +:+ ") " +:+ fname +:+ "() " +:+ ftyp +:+ nl.

Definition basicName (k : BasicKind) : string :=
  match k with
  | Bool => "bool" | Int => "int" | Int8 => "int8" | Int16 => "int16"
  | Int32 => "int32" | Int64 => "int64" | Uint => "uint" | Uint8 => "uint8"
  | Uint16 => "uint16" | Uint32 => "uint32" | Uint64 => "uint64"
  | Uintptr => "uintptr" | Float32 => "float32" | Float64 => "float64"
  | Complex64 => "complex64" | Complex128 => "complex128"
  | String_ => "string" | UnsafePointer => "unsafe.Pointer"
  end.

Fixpoint exTypeString (t : Type_) (q : Qualifier) : string :=
  match t with
  | Basic k => basicName k
  | Named n (Some p) _ =>
      match q with
      | Some f =>
          if bool_decide (f p = EmptyString) then n else f p +:+ "." +:+ n
      | None => pkg_path p +:+ "." +:+ n
      end
  | Named n None _ => n
  | Pointer e => "*" +:+ exTypeString e q
  | Slice e => "[]" +:+ exTypeString e q
  | Array n e => "[" +:+ pretty n +:+ "]" +:+ exTypeString e q
  | Map k e => "map[" +:+ exTypeString k q +:+ "]" +:+ exTypeString e q
  | Chan _ e => "chan " +:+ exTypeString e q
  | Struct _ => "struct{...}"
  | Interface _ => "interface{...}"
  | Signature _ _ => "func(...)"
  end.

Definition exGenerate : Env → IO string :=
  generate exHeader exPackage exImport exStruct exField exTypeString.
Definition exMain : Env → IO () :=
  main exHeader exPackage exImport exStruct exField exTypeString.

(** The package of the example: it declares [Template]. *)
Definition examplePackage (lookup : Sizes) : LoadedPackage :=
  {| Defs := [None;
              Some {| object_name := "Template";
                      object_type :=
                        Named "Template" (Some mainPkg)
                          (Struct exampleTemplate) |}];
     Types := Some mainPkg;
     TypesSizes := lookup;
     Errors := [] |}.

(** The union generated for the example, and the whole generated text. *)
Definition exampleBody : string :=
  exStruct "TemplateUnion" 1 "uint32"
  +:+ exField "TemplateUnion" "i1" "uint32"
  +:+ exField "TemplateUnion" "i2" "uint16".
Definition exampleText : string :=
  exHeader +:+ exPackage "main" +:+ exImport EmptyString +:+ exampleBody.

(** [unionize Template .] where the formatter accepts every text. *)
Definition exampleEnv : Env :=
  {| flags := ∅;
     args := ["Template"; "."];
     packages_Load := λ _, ([examplePackage stdSizes], None);
     format_Source := λ buf, inl buf;
     ioutil_WriteFile := λ _ _ _, None;
     flag_PrintDefaults := EmptyString |}.

(** The same run where the formatter rejects the text. *)
Definition rejectingEnv : Env :=
  {| flags := ∅;
     args := ["Template"; "."];
     packages_Load := λ _, ([examplePackage stdSizes], None);
     format_Source := λ _, inr "1:1: expected declaration";
     ioutil_WriteFile := λ _ _ _, None;
     flag_PrintDefaults := EmptyString |}.

(** [unionize -output=/nonexistent/u.go Template .] where the file cannot be
    written. *)
Definition unwritableEnv : Env :=
  {| flags := {[ "output" := "/nonexistent/u.go" ]};
     args := ["Template"; "."];
     packages_Load := λ _, ([examplePackage stdSizes], None);
     format_Source := λ buf, inl buf;
     ioutil_WriteFile := λ _ _ _,
       Some "open /nonexistent/u.go: no such file or directory";
     flag_PrintDefaults := EmptyString |}.


(** A package that declares [Empty] as [struct{}], and [unionize Empty .]. *)
Definition emptyPackage : LoadedPackage :=
  {| Defs := [Some {| object_name := "Empty";
                      object_type :=
                        Named "Empty" (Some mainPkg) (Struct []) |}];
     Types := Some mainPkg;
     TypesSizes := stdSizes;
     Errors := [] |}.

Definition emptyStructEnv : Env :=
  {| flags := ∅;
     args := ["Empty"; "."];
     packages_Load := λ _, ([emptyPackage], None);
     format_Source := λ buf, inl buf;
     ioutil_WriteFile := λ _ _ _, None;
     flag_PrintDefaults := EmptyString |}.

(** [unionize -pkg=shapes Template .] *)
Definition pkgOnlyEnv : Env :=
  {| flags := {[ "pkg" := "shapes" ]};
     args := ["Template"; "."];
     packages_Load := λ _, ([examplePackage stdSizes], None);
     format_Source := λ buf, inl buf;
     ioutil_WriteFile := λ _ _ _, None;
     flag_PrintDefaults := EmptyString |}.

(** ** Vocabulary of the further results *)

(** The entry [d] of [TypesInfo.Defs] is an object called [name] whose type
    has the struct type with the fields [s] as its underlying type. *)
Definition declares (name : string) (s : list Var) (d : option Object)
    : Prop :=
  ∃ o, d = Some o ∧ object_name o = name
       ∧ Underlying (object_type o) = Struct s.

(** The event is a call of [ioutil.WriteFile]. *)
Definition is_file (e : event) : Prop :=
  match e with
  | FileWrite _ _ _ _ => True
  | _ => False
  end.

Global Instance is_file_dec e : Decision (is_file e).
Proof. destruct e; apply _. Defined.

(** The strings of a list one after the other. *)
Definition concat_text (l : list string) : string :=
  foldr String.append EmptyString l.

(** A template with a field of the universe type [error] between two
    ordinary fields. *)
Definition errorFields : list Field :=
  [ {| name := "a"; typ := Named "A" (Some xPkg) (Basic Uint32) |};
    {| name := "e"; typ := Named "error" None (Interface ["Error"]) |};
    {| name := "n"; typ := Basic Uint64 |} ].

(** A package in which [Template] is first met as a variable, then as a
    struct type, and a third time as another struct type. *)
Definition shadowedPackage : LoadedPackage :=
  {| Defs := [None;
              Some {| object_name := "Template";
                      object_type := Basic Int |};
              Some {| object_name := "Other";
                      object_type := Struct oddTemplate |};
              Some {| object_name := "Template";
                      object_type :=
                        Named "Template" (Some mainPkg)
                          (Struct exampleTemplate) |};
              Some {| object_name := "Template";
                      object_type := Struct oddTemplate |}];
     Types := Some mainPkg;
     TypesSizes := stdSizes;
     Errors := [] |}.

(** The computation writes no file and does not stop with an exit code
    other than 1. *)
Definition early_exit {A} (m : IO A) : Prop :=
  Forall (λ e, ¬ is_file e) m.1
  ∧ match m.2 with
    | inr (Exit code) => code = 1
    | _ => True
    end.

(** [unionize] without arguments. *)
Definition noArgsEnv : Env :=
  {| flags := ∅;
     args := [];
     packages_Load := λ _, ([examplePackage stdSizes], None);
     format_Source := λ buf, inl buf;
     ioutil_WriteFile := λ _ _ _, None;
     flag_PrintDefaults := "  -pkg string" +:+ nl |}.

(** A run whose pattern cannot be loaded. *)
Definition loadErrorEnv : Env :=
  {| flags := ∅;
     args := ["Template"; "./missing"];
     packages_Load := λ _, ([], Some "no such directory");
     format_Source := λ buf, inl buf;
     ioutil_WriteFile := λ _ _ _, None;
     flag_PrintDefaults := EmptyString |}.

(** A run whose package has two errors. *)
Definition brokenEnv : Env :=
  {| flags := ∅;
     args := ["Template"; "."];
     packages_Load := λ _,
       ([ {| Defs := []; Types := Some mainPkg; TypesSizes := stdSizes;
             Errors := ["a.go:1:1: expected package"; "b.go:2:3: syntax"] |} ],
        None);
     format_Source := λ buf, inl buf;
     ioutil_WriteFile := λ _ _ _, None;
     flag_PrintDefaults := EmptyString |}.

(** A run whose pattern matches no package. *)
Definition noPackageEnv : Env :=
  {| flags := ∅;
     args := ["Template"; "."];
     packages_Load := λ _, ([], None);
     format_Source := λ buf, inl buf;
     ioutil_WriteFile := λ _ _ _, None;
     flag_PrintDefaults := EmptyString |}.

(** A run that asks for a type the package does not declare. *)
Definition missingStructEnv : Env :=
  {| flags := ∅;
     args := ["Missing"; "."];
     packages_Load := λ _, ([examplePackage stdSizes], None);
     format_Source := λ buf, inl buf;
     ioutil_WriteFile := λ _ _ _, None;
     flag_PrintDefaults := EmptyString |}.

(** A package whose template has a field of type [error], and a run on it. *)
Definition errorPackage : LoadedPackage :=
  {| Defs := [Some {| object_name := "Template";
                      object_type :=
                        Struct [("i1", Basic Uint32);
                                ("err",
                                 Named "error" None (Interface ["Error"]))] |}];
     Types := Some mainPkg;
     TypesSizes := stdSizes;
     Errors := [] |}.

Definition errorFieldEnv : Env :=
  {| flags := ∅;
     args := ["Template"; "."];
     packages_Load := λ _, ([errorPackage], None);
     format_Source := λ buf, inl buf;
     ioutil_WriteFile := λ _ _ _, None;
     flag_PrintDefaults := EmptyString |}.

(** [unionize -pkg=shapes -otype=Overlay -output=u.go Template .] *)
Definition namedEnv : Env :=
  {| flags := {[ "pkg" := "shapes"; "otype" := "Overlay";
                 "output" := "u.go" ]};
     args := ["Template"; "."];
     packages_Load := λ _, ([examplePackage stdSizes], None);
     format_Source := λ buf, inl buf;
     ioutil_WriteFile := λ _ _ _, None;
     flag_PrintDefaults := EmptyString |}.

(** The union and the text generated in that run. *)
Definition namedBody : string :=
  exStruct "Overlay" 1 "uint32"
  +:+ exField "Overlay" "i1" "uint32"
  +:+ exField "Overlay" "i2" "uint16".
Definition namedText : string :=
  exHeader +:+ exPackage "shapes" +:+ exImport EmptyString +:+ namedBody.
(** * Results *)

(** ** UnionSize *)

Lemma wrap_in_range z : Int64.in_range z → Int64.wrap z = z.
Proof.
  unfold Int64.in_range, Int64.wrap, Int64.min_int, Int64.max_int.
  intros H. rewrite Z.mod_small; lia.
Qed.

Lemma scan_acc lookup fs m0 a0 m a :
  foldl (scan_step lookup) (m0, a0) fs = (m, a) →
  (m0 ≤ m ∧ (∀ x, x ∈ sizes_of lookup fs → x ≤ m)
     ∧ (m = m0 ∨ m ∈ sizes_of lookup fs))
  ∧ (a0 ≤ a ∧ (∀ x, x ∈ aligns_of lookup fs → x ≤ a)
     ∧ (a = a0 ∨ a ∈ aligns_of lookup fs)).
Proof.
  revert m0 a0. induction fs as [|f fs IH]; intros m0 a0 H; simpl in H.
  - inversion H; subst. split; (split; [lia|split; [|by left]]);
      intros x Hx; by apply elem_of_nil in Hx.
  - apply IH in H as [(Hm1 & Hm2 & Hm3) (Ha1 & Ha2 & Ha3)].
    unfold sizes_of, aligns_of in *. rewrite !fmap_cons.
    repeat case_bool_decide; (split; (split; [lia|split])).
    all: try (intros x [->|Hx]%elem_of_cons; [lia|auto]).
    all: try (destruct Hm3 as [->|Hm3];
                [by (left + (right; apply elem_of_cons; left))
                |right; apply elem_of_cons; by right]).
    all: destruct Ha3 as [->|Ha3];
           [by (left + (right; apply elem_of_cons; left))
           |right; apply elem_of_cons; by right].
Qed.

(** The scan computes the two maxima independently. *)
Lemma scan_max lookup s M A :
  is_max M (sizes_of lookup s) → is_max A (aligns_of lookup s) →
  0 ≤ M → 0 ≤ A →
  scan lookup s = (M, A).
Proof.
  intros [HM1 HM2] [HA1 HA2] HM0 HA0. unfold scan.
  rewrite Forall_forall in HM2, HA2.
  destruct (foldl _ _ _) as [m a] eqn:E.
  apply scan_acc in E as [(Hm1 & Hm2 & Hm3) (Ha1 & Ha2 & Ha3)].
  f_equal.
  - apply Z.le_antisymm; [|by apply Hm2].
    destruct Hm3 as [->|Hm3]; [done|by apply HM2].
  - apply Z.le_antisymm; [|by apply Ha2].
    destruct Ha3 as [->|Ha3]; [done|by apply HA2].
Qed.

Lemma round_up_spec M A :
  0 ≤ M → 0 < A →
  M ≤ round_up M A ∧ round_up M A `rem` A = 0 ∧ round_up M A < M + A.
Proof.
  intros HM HA. unfold round_up.
  rewrite (Z.rem_mod_nonneg M A) by lia.
  pose proof (Z.mod_pos_bound M A HA) as Hb.
  pose proof (Z.div_mod M A ltac:(lia)) as Hd.
  destruct (decide (M `mod` A = 0)) as [E|E].
  - rewrite Z.rem_mod_nonneg by lia. lia.
  - replace (M - M `mod` A + A) with ((M `div` A + 1) * A) by lia.
    split; [lia|split; [|lia]].
    apply Z.rem_mul; lia.
Qed.

Lemma UnionSize_round_up s lookup M A :
  scan lookup s = (M, A) → 0 ≤ M → 0 < A →
  round_up M A ≤ Int64.max_int →
  UnionSize s lookup = Ok (round_up M A, A).
Proof.
  intros Hscan HM HA Hfit. unfold UnionSize. rewrite Hscan.
  unfold Int64.rem, round_up in *.
  pose proof (Z.rem_bound_pos M A HM HA) as Hr.
  pose proof (Z.rem_le M A HM HA) as Hle.
  rewrite decide_False by lia. simpl.
  destruct (decide (M `rem` A = 0)) as [E|E].
  - by rewrite bool_decide_false by (intros ?; done).
  - rewrite bool_decide_true by done. simpl.
    unfold Int64.add, Int64.sub, Int64.max_int in *.
    rewrite (wrap_in_range (M - _)), wrap_in_range; [done| |];
      unfold Int64.in_range, Int64.min_int, Int64.max_int; lia.
Qed.

(** The layout of a template with non-negative sizes and positive
    alignments whose rounded size fits an int64. *)
Lemma UnionSize_max_rounded s lookup M A :
  is_max M (sizes_of lookup s) →
  is_max A (aligns_of lookup s) →
  Forall (λ x, 0 ≤ x) (sizes_of lookup s) →
  Forall (λ x, 0 < x) (aligns_of lookup s) →
  round_up M A ≤ Int64.max_int →
  0 ≤ M ∧ 0 < A ∧ UnionSize s lookup = Ok (round_up M A, A).
Proof.
  intros HM HA Hsz Hal Hfit.
  assert (0 ≤ M) as HM0.
  { rewrite Forall_forall in Hsz. apply Hsz, HM. }
  assert (0 < A) as HA0.
  { rewrite Forall_forall in Hal. apply Hal, HA. }
  split; [done|]. split; [done|].
  apply UnionSize_round_up; [|done..].
  apply scan_max; [done..|lia].
Qed.

(** C1 (as amended).  For a template with at least one field whose sizes are
    non-negative and whose alignments are positive, and whose maximal size
    rounded up to the maximal alignment still fits an int64, [UnionSize]
    returns the maximal alignment, and as size the maximal size rounded up to
    the next multiple of that alignment: at least the maximal size, a multiple
    of the alignment, and less than one alignment above the maximal size. *)
Theorem UnionSize_layout s lookup M A :
  is_max M (sizes_of lookup s) →
  is_max A (aligns_of lookup s) →
  Forall (λ x, 0 ≤ x) (sizes_of lookup s) →
  Forall (λ x, 0 < x) (aligns_of lookup s) →
  round_up M A ≤ Int64.max_int →
  UnionSize s lookup = Ok (round_up M A, A)
  ∧ M ≤ round_up M A
  ∧ round_up M A `rem` A = 0
  ∧ round_up M A < M + A.
Proof.
  intros HM HA Hsz Hal Hfit.
  destruct (UnionSize_max_rounded s lookup M A) as (HM0 & HA0 & HU);
    [done..|].
  split; [done|]. by apply round_up_spec.
Qed.

Lemma UnionSize_layout_witness :
  UnionSize oddTemplate stdSizes = Ok (round_up 6 4, 4)
  ∧ 6 ≤ round_up 6 4
  ∧ round_up 6 4 `rem` 4 = 0
  ∧ round_up 6 4 < 6 + 4.
Proof.
  apply (UnionSize_layout oddTemplate stdSizes 6 4).
  - apply (bool_decide_unpack _). vm_compute. exact I.
  - apply (bool_decide_unpack _). vm_compute. exact I.
  - apply (bool_decide_unpack _). vm_compute. exact I.
  - apply (bool_decide_unpack _). vm_compute. exact I.
  - vm_compute. discriminate.
Defined.

(** The sizes 6 and 4 with the alignments 2 and 4 give size 8, alignment 4. *)
Lemma UnionSize_oddTemplate : UnionSize oddTemplate stdSizes = Ok (8, 4).
Proof. vm_compute. reflexivity. Qed.

(** C1 (as stated) fails: the fields have positive alignments, the maximal
    size is [2^63 - 1] and the maximal alignment 8, and the rounding wraps
    around: the size returned is [-2^63], below the maximal size. *)
Lemma UnionSize_layout_overflow :
  hugeTemplate ≠ []
  ∧ Forall (λ x, 0 < x) (aligns_of stdSizes hugeTemplate)
  ∧ is_max (2 ^ 63 - 1) (sizes_of stdSizes hugeTemplate)
  ∧ is_max 8 (aligns_of stdSizes hugeTemplate)
  ∧ UnionSize hugeTemplate stdSizes = Ok (- 2 ^ 63, 8)
  ∧ ¬ (2 ^ 63 - 1 ≤ - 2 ^ 63).
Proof.
  split; [done|].
  repeat (split; [apply (bool_decide_unpack _); vm_compute; exact I|]).
  split; [vm_compute; reflexivity|lia].
Qed.

(** ** GetImports *)

Lemma imports_step_owned pkg imports f :
  owned f →
  imports_step pkg imports f
  = Ok (imports ++ (import_line <$> option_list (external pkg f))).
Proof.
  unfold owned, imports_step, external, import_line.
  destruct (typ f) as [|n [p|] u| | | | | | | |]; intros H;
    try done; simpl; try by rewrite app_nil_r.
  destruct (pkg_eqb pkg (Some p)); simpl; [by rewrite app_nil_r|done].
Qed.

Lemma imports_loop_owned pkg imports fields :
  Forall owned fields →
  imports_loop pkg imports fields
  = Ok (imports ++ (import_line <$> omap (external pkg) fields)).
Proof.
  intros H. revert imports.
  induction H as [|f fields Hf _ IH]; intros imports; simpl.
  - by rewrite app_nil_r.
  - rewrite imports_step_owned by done. simpl. rewrite IH.
    destruct (external pkg f); simpl; by rewrite <-?app_assoc.
Qed.

Lemma imports_step_unnamed pkg imports f :
  is_named (typ f) = false → imports_step pkg imports f = Ok imports.
Proof. unfold imports_step. by destruct (typ f). Qed.

Lemma imports_loop_skip pkg imports fields1 f fields2 :
  is_named (typ f) = false →
  imports_loop pkg imports (fields1 ++ f :: fields2)
  = imports_loop pkg imports (fields1 ++ fields2).
Proof.
  intros Hf. revert imports.
  induction fields1 as [|g fields1 IH]; intros imports; simpl.
  - by rewrite imports_step_unnamed.
  - destruct (imports_step pkg imports g); simpl; [apply IH|done].
Qed.

(** C2 (as stated) fails: two fields with types from the same package give
    the import of that package twice. *)
Lemma GetImports_duplicates :
  GetImports twoFromX (Some mainPkg) = Ok [import_line xPkg; import_line xPkg]
  ∧ ¬ NoDup [import_line xPkg; import_line xPkg].
Proof.
  split; [reflexivity|].
  intros H. apply NoDup_cons in H as [H _]. apply H, list_elem_of_here.
Qed.

(** C2 (as amended).  When no field has a universe-scope defined type,
    [GetImports] returns, in field order, one quoted import path for each
    field whose type is a defined type of a package other than the home
    package: a package appears as many times as fields refer to it.  A field
    whose type is local to the home package or is not a defined type adds
    nothing, and when every field is such the result is empty. *)
Theorem GetImports_one_per_field fields pkg :
  Forall owned fields →
  GetImports fields pkg = Ok (import_line <$> omap (external pkg) fields)
  ∧ (∀ p, length (filter (λ l, l = import_line p)
                    (import_line <$> omap (external pkg) fields))
          = length (filter (refers pkg p) fields))
  ∧ (Forall (λ f, external pkg f = None) fields →
     GetImports fields pkg = Ok []).
Proof.
  intros H. assert (GetImports fields pkg
                    = Ok (import_line <$> omap (external pkg) fields)) as E.
  { unfold GetImports. by rewrite imports_loop_owned. }
  split; [done|]. split.
  - intros p. clear. induction fields as [|f fields IH]; [done|].
    simpl. rewrite (filter_cons _ f).
    destruct (decide (refers pkg p f)) as [R|R]; unfold refers in R;
      destruct (external pkg f) as [q|]; simpl in *; try done.
    + rewrite filter_cons, decide_True by congruence. simpl. f_equal. exact IH.
    + rewrite filter_cons, decide_False by congruence. exact IH.
  - intros Hnone. rewrite E. f_equal.
    clear -Hnone. induction Hnone as [|f fields Hf _ IH]; [done|].
    simpl. by rewrite Hf.
Qed.

Lemma GetImports_one_per_field_witness :
  Forall owned mixedFields
  ∧ GetImports mixedFields (Some mainPkg)
    = Ok (import_line <$> omap (external (Some mainPkg)) mixedFields).
Proof.
  assert (Forall owned mixedFields) as H by (repeat constructor).
  split; [exact H|].
  exact (proj1 (GetImports_one_per_field mixedFields (Some mainPkg) H)).
Defined.

(** A field whose type is not a defined type is skipped by [GetImports]. *)
Lemma GetImports_unnamed_skipped fields1 f fields2 pkg :
  is_named (typ f) = false →
  GetImports (fields1 ++ f :: fields2) pkg = GetImports (fields1 ++ fields2) pkg.
Proof. intros Hf. unfold GetImports. by apply imports_loop_skip. Qed.

(** C10.  A pointer, slice, array, map or channel type is not a defined type,
    whatever types it mentions, and a field of such a type is skipped by
    [GetImports]: the result is the one obtained without that field. *)
Theorem GetImports_composite_skipped fields1 f fields2 pkg :
  composite (typ f) →
  is_named (typ f) = false
  ∧ GetImports (fields1 ++ f :: fields2) pkg
    = GetImports (fields1 ++ fields2) pkg.
Proof.
  intros Hf.
  assert (is_named (typ f) = false) as Hn by (by destruct (typ f)).
  split; [done|]. unfold GetImports. by apply imports_loop_skip.
Qed.

Lemma GetImports_composite_skipped_witness :
  composite (typ ptrField)
  ∧ GetImports ([] ++ ptrField :: []) (Some mainPkg)
    = GetImports ([] ++ []) (Some mainPkg)
  ∧ GetImports [ptrField] (Some mainPkg) = Ok [].
Proof.
  split; [exact I|]. split; [|reflexivity].
  apply (GetImports_composite_skipped [] ptrField [] (Some mainPkg) I).
Defined.

(** ** The alignment table and the fallback *)

Lemma alignments_lookup a :
  alignments !! a =
    if decide (a = 1) then Some "uint8"
    else if decide (a = 2) then Some "uint16"
    else if decide (a = 4) then Some "uint32"
    else if decide (a = 8) then Some "uint64"
    else None.
Proof.
  unfold alignments.
  repeat (rewrite lookup_insert; case_decide; [subst|]).
  4: rewrite lookup_singleton; case_decide; [subst|].
  all: repeat (rewrite decide_False by lia);
    repeat (rewrite decide_True by lia); done.
Qed.

Lemma supported_cases a : a ∈ [1; 2; 4; 8] ↔ a = 1 ∨ a = 2 ∨ a = 4 ∨ a = 8.
Proof. rewrite !elem_of_cons, elem_of_nil. tauto. Qed.

Lemma alignments_supported a :
  a ∈ [1; 2; 4; 8] → is_Some (alignments !! a).
Proof.
  rewrite supported_cases, alignments_lookup.
  intros [-> | [-> | [-> | ->]]]; simpl; eauto.
Qed.

Lemma alignments_unsupported a :
  a ∉ [1; 2; 4; 8] → alignments !! a = None.
Proof.
  rewrite supported_cases, alignments_lookup. intros H.
  repeat (rewrite decide_False by tauto). done.
Qed.

Lemma fallback_spec align :
  fallback align
  = if decide (align ∈ [1; 2; 4; 8]) then ([], inl align)
    else ([Stdout (warning align)], inl 8).
Proof.
  unfold fallback. destruct (decide _) as [H|H].
  - by destruct (alignments_supported _ H) as [typ ->].
  - by rewrite alignments_unsupported.
Qed.

Lemma fallback_used align : (fallback align).2 = inl (used_alignment align).
Proof.
  rewrite fallback_spec. unfold used_alignment. by destruct (decide _).
Qed.

Lemma used_alignment_supported align : used_alignment align ∈ [1; 2; 4; 8].
Proof.
  unfold used_alignment. destruct (decide _); [done|].
  apply supported_cases. auto.
Qed.

(** ** The element count *)

Lemma wrap_range z : Int64.in_range (Int64.wrap z).
Proof.
  unfold Int64.in_range, Int64.wrap, Int64.min_int, Int64.max_int.
  pose proof (Z.mod_pos_bound (z + 2 ^ 63) (2 ^ 64) ltac:(lia)). lia.
Qed.

Lemma wrap_divide a z : (a | 2 ^ 64) → (a | z) → (a | Int64.wrap z).
Proof.
  intros Ha Hz. unfold Int64.wrap. rewrite Z.mod_eq by lia.
  replace (z + 2 ^ 63 - 2 ^ 64 * ((z + 2 ^ 63) `div` 2 ^ 64) - 2 ^ 63)
    with (z - 2 ^ 64 * ((z + 2 ^ 63) `div` 2 ^ 64)) by lia.
  apply Z.divide_sub_r; [done|]. by apply Z.divide_mul_l.
Qed.

Lemma pow2_positive a : is_pow2 a → 0 < a.
Proof. intros (k & Hk & ->). by apply Z.pow_pos_nonneg. Qed.

Lemma pow2_divide_word a : is_pow2 a → a ≤ Int64.max_int → (a | 2 ^ 64).
Proof.
  intros (k & Hk & ->) Hmax. unfold Int64.max_int in Hmax.
  assert (k < 63) as Hlt by (apply (Z.pow_lt_mono_r_iff 2); lia).
  exists (2 ^ (64 - k)). rewrite <-Z.pow_add_r by lia. f_equal. lia.
Qed.

Lemma pow2_unsupported a : is_pow2 a → a ∉ [1; 2; 4; 8] → (8 | a).
Proof.
  intros (k & Hk & ->) Hno. rewrite supported_cases in Hno.
  assert (4 ≤ k) as Hge.
  { apply Z.nlt_ge. intros Hlt. apply Hno.
    assert (k = 0 ∨ k = 1 ∨ k = 2 ∨ k = 3) as [-> | [-> | [-> | ->]]] by lia;
      simpl; tauto. }
  exists (2 ^ (k - 3)). change 8 with (2 ^ 3).
  rewrite <-Z.pow_add_r by lia. f_equal. lia.
Qed.

(** The size [UnionSize] returns is a multiple of the alignment it returns,
    also when the rounding wraps around, as long as the alignments are powers
    of two. *)
Lemma UnionSize_multiple s lookup :
  s ≠ [] →
  Forall Int64.in_range (sizes_of lookup s) →
  Forall (λ a, is_pow2 a ∧ a ≤ Int64.max_int) (aligns_of lookup s) →
  ∃ sz al,
    UnionSize s lookup = Ok (sz, al)
    ∧ Int64.in_range sz ∧ is_pow2 al ∧ (al | sz).
Proof.
  intros Hs Hsz Hal. unfold UnionSize.
  destruct (scan lookup s) as [m a] eqn:E. unfold scan in E.
  apply scan_acc in E as [(Hm0 & _ & Hm) (Ha0 & Hamax & Ha)].
  rewrite Forall_forall in Hsz, Hal.
  assert (a ∈ aligns_of lookup s) as Hin.
  { destruct Ha as [->|Ha]; [|done].
    destruct s as [|f s]; [done|].
    assert (Alignof lookup (var_type f) ∈ aligns_of lookup (f :: s)) as Hf
      by apply list_elem_of_here.
    specialize (Hamax _ Hf). destruct (Hal _ Hf) as [Hp _].
    apply pow2_positive in Hp. lia. }
  destruct (Hal _ Hin) as [Hpow Hmax].
  pose proof (pow2_positive _ Hpow) as Hpos.
  assert (Int64.in_range m) as Hm_range.
  { destruct Hm as [->|Hm]; [|by apply Hsz].
    unfold Int64.in_range, Int64.min_int, Int64.max_int. lia. }
  unfold Int64.rem. rewrite decide_False by lia. simpl.
  pose proof (Z.rem_bound_pos m a Hm0 Hpos) as Hr.
  pose proof (Z.rem_le m a Hm0 Hpos) as Hle.
  case_bool_decide as Hrem; simpl.
  - eexists _, a. split; [done|]. split; [apply wrap_range|].
    split; [done|].
    unfold Int64.add, Int64.sub.
    apply wrap_divide; [by apply pow2_divide_word|].
    apply Z.divide_add_r; [|done].
    apply wrap_divide; [by apply pow2_divide_word|].
    exists (m `quot` a). pose proof (Z.quot_rem m a ltac:(lia)). lia.
  - exists m, a. split; [done|]. split; [done|]. split; [done|].
    apply Z.rem_divide; [lia|]. lia.
Qed.

(** C3.  For every template with at least one field, whose sizes are int64
    values and whose alignments are powers of two, [UnionSize] returns a size
    and an alignment, [main] passes on that alignment or, when it is not 1,
    2, 4 or 8, the alignment 8, and [StringUnion] gets the element count of
    the backing array as the size divided by the alignment passed on: the
    division leaves no remainder, and the element count times the alignment
    is the size, in the substitution case too. *)
Theorem element_count_exact s lookup :
  s ≠ [] →
  Forall Int64.in_range (sizes_of lookup s) →
  Forall (λ a, is_pow2 a ∧ a ≤ Int64.max_int) (aligns_of lookup s) →
  ∃ sz al typ count,
    UnionSize s lookup = Ok (sz, al)
    ∧ (fallback al).2 = inl (used_alignment al)
    ∧ alignments !! used_alignment al = Some typ
    ∧ storage sz (used_alignment al) = Ok (typ, count)
    ∧ count = sz `quot` used_alignment al
    ∧ sz `rem` used_alignment al = 0
    ∧ count * used_alignment al = sz.
Proof.
  intros Hs Hsz Hal.
  destruct (UnionSize_multiple s lookup Hs Hsz Hal)
    as (sz & al & HU & Hrange & Hpow & Hdiv).
  pose proof (used_alignment_supported al) as Hu.
  destruct (alignments_supported _ Hu) as [typ Htyp].
  assert ((used_alignment al | sz)) as Hdiv'.
  { unfold used_alignment in *. destruct (decide _) as [|Hno]; [done|].
    etrans; [by apply pow2_unsupported|done]. }
  assert (0 < used_alignment al) as Hpos
    by (apply supported_cases in Hu; lia).
  assert (sz `rem` used_alignment al = 0) as Hrem
    by (apply Z.rem_divide; [lia|done]).
  assert (sz `quot` used_alignment al * used_alignment al = sz) as Hexact.
  { rewrite Z.mul_comm. symmetry. apply Z.quot_exact; [lia|done]. }
  exists sz, al, typ, (sz `quot` used_alignment al).
  split; [done|]. split; [apply fallback_used|]. split; [done|].
  split; [|done].
  unfold storage, Int64.quo. rewrite decide_False by lia. simpl.
  rewrite Htyp. simpl. rewrite wrap_in_range; [done|].
  unfold Int64.in_range, Int64.min_int, Int64.max_int in *. nia.
Qed.

Lemma element_count_exact_witness :
  ∃ sz al typ count,
    UnionSize oddTemplate stdSizes = Ok (sz, al)
    ∧ (fallback al).2 = inl (used_alignment al)
    ∧ alignments !! used_alignment al = Some typ
    ∧ storage sz (used_alignment al) = Ok (typ, count)
    ∧ count = sz `quot` used_alignment al
    ∧ sz `rem` used_alignment al = 0
    ∧ count * used_alignment al = sz.
Proof.
  apply (element_count_exact oddTemplate stdSizes).
  - discriminate.
  - apply (bool_decide_unpack _). vm_compute. exact I.
  - repeat constructor; try (by exists 1); try (by exists 2);
      vm_compute; discriminate.
Defined.

(** The substitution case: a size of 48 with the alignment 16 is stored as
    six elements of 8 bytes. *)
Lemma element_count_align16 :
  UnionSize exampleTemplate (constSizes 48 16) = Ok (48, 16)
  ∧ fallback 16 = ([Stdout (warning 16)], inl 8)
  ∧ storage 48 8 = Ok ("uint64", 6).
Proof. repeat split; vm_compute; reflexivity. Qed.

(** ** Templates without fields *)

(** C5.  On a template without fields the scan leaves both maxima at zero and
    the remainder [maxsz % maxalign] divides by zero: [UnionSize] panics, for
    every size oracle, instead of returning size 0 and alignment 0.  [main]
    passes such a template on, and the run ends in that panic. *)
Theorem UnionSize_no_fields :
  (∀ lookup, UnionSize [] lookup = Panic divide_error)
  ∧ FindUnion emptyPackage "Empty" = Some []
  ∧ exMain emptyStructEnv = ([], inr (Crash divide_error))
  ∧ exit_code (exMain emptyStructEnv).2 = 2.
Proof.
  split; [intros lookup; reflexivity|].
  repeat split; vm_compute; reflexivity.
Qed.

(** ** The end of main *)

Section Main.
Variable header : string.
Variable packageTemplate : string → string.
Variable importTemplate : string → string.
Variable structTemplate : string → Z → string → string.
Variable fieldTemplate : string → string → string → string.
Variable TypeString : Type_ → Qualifier → string.

Local Abbreviation generate' :=
  (generate header packageTemplate importTemplate structTemplate
     fieldTemplate TypeString).
Local Abbreviation main' :=
  (main header packageTemplate importTemplate structTemplate
     fieldTemplate TypeString).
Local Abbreviation StringUnion' :=
  (StringUnion structTemplate fieldTemplate TypeString).

Lemma main_finish env t buf :
  generate' env = (t, inl buf) →
  main' env = (t ++ (finish env buf).1, (finish env buf).2).
Proof.
  intros H. unfold main. rewrite H. simpl. by destruct (finish env buf).
Qed.

(** C7.  When the buffer is filled and [format.Source] rejects it, the run
    prints the unformatted buffer to the standard output, then two lines to
    the standard error, and exits with code 1. *)
Theorem format_failure env t buf e :
  generate' env = (t, inl buf) →
  format_Source env buf = inr e →
  main' env
  = (t ++ [Stdout buf;
           Stderr ("Error with union generation:" +:+ nl);
           Stderr ("format: " +:+ e +:+ nl)],
     inr (Exit 1))
  ∧ exit_code (main' env).2 = 1.
Proof.
  intros Hgen Hsrc.
  rewrite (main_finish _ _ _ Hgen). unfold finish. rewrite Hsrc. done.
Qed.

(** The error of [ioutil.WriteFile] is dropped: with an output file the run
    ends with exit code 0 whatever the write returns. *)
Lemma write_error_ignored env t buf output file :
  generate' env = (t, inl buf) →
  format_Source env buf = inl output →
  flags env !! "output" = Some file →
  file ≠ EmptyString →
  main' env
  = (t ++ [FileWrite file output 438 (ioutil_WriteFile env file output 438)],
     inl ())
  ∧ exit_code (main' env).2 = 0.
Proof.
  intros Hgen Hsrc Hflag Hfile.
  rewrite (main_finish _ _ _ Hgen). unfold finish, flag_String.
  rewrite Hsrc, Hflag. simpl. by rewrite bool_decide_true.
Qed.
End Main.

Lemma format_failure_witness :
  exMain rejectingEnv
  = ([] ++ [Stdout exampleText;
            Stderr ("Error with union generation:" +:+ nl);
            Stderr ("format: " +:+ "1:1: expected declaration" +:+ nl)],
     inr (Exit 1))
  ∧ exit_code (exMain rejectingEnv).2 = 1.
Proof.
  apply (format_failure exHeader exPackage exImport exStruct exField
           exTypeString rejectingEnv).
  - vm_compute. reflexivity.
  - reflexivity.
Defined.

(** C8.  With [-output] set to a file that cannot be written, the run calls
    [ioutil.WriteFile], gets an error, and still ends with exit code 0;
    nothing is written to the standard output or the standard error. *)
Theorem write_failure_exit_zero :
  exMain unwritableEnv
  = ([FileWrite "/nonexistent/u.go"
        exampleText
        438 (Some "open /nonexistent/u.go: no such file or directory")],
     inl ())
  ∧ exit_code (exMain unwritableEnv).2 = 0.
Proof. split; vm_compute; reflexivity. Qed.

(** ** The defaults of the flags *)

Lemma PrintErrors_none pkgs :
  Forall (λ p, Errors p = []) pkgs → PrintErrors pkgs = ([], inl 0).
Proof.
  intros H. unfold PrintErrors.
  assert (concat (Errors <$> pkgs) = []) as ->; [|done].
  induction H as [|p pkgs Hp _ IH]; [done|].
  rewrite fmap_cons. simpl. by rewrite Hp, IH.
Qed.

Section Defaults.
Variable header : string.
Variable packageTemplate : string → string.
Variable importTemplate : string → string.
Variable structTemplate : string → Z → string → string.
Variable fieldTemplate : string → string → string → string.
Variable TypeString : Type_ → Qualifier → string.

Local Abbreviation generate' :=
  (generate header packageTemplate importTemplate structTemplate
     fieldTemplate TypeString).
Local Abbreviation main' :=
  (main header packageTemplate importTemplate structTemplate
     fieldTemplate TypeString).
Local Abbreviation StringUnion' :=
  (StringUnion structTemplate fieldTemplate TypeString).

(** The buffer of a run that finds its template: the header, the package
    clause, the imports and the union, with the names the flags give. *)
Lemma generate_buffer env T loc pkg pkgs s sz al imports body :
  args env = [T; loc] →
  packages_Load env loc = (pkg :: pkgs, None) →
  Forall (λ p, Errors p = []) (pkg :: pkgs) →
  FindUnion pkg T = Some s →
  UnionSize s (TypesSizes pkg) = Ok (sz, al) →
  GetImports (UnionFields s) (Types pkg) = Ok imports →
  StringUnion'
    (if bool_decide (flag_String env "otype" EmptyString ≠ EmptyString)
     then flag_String env "otype" EmptyString else T +:+ "Union")
    sz (used_alignment al) (UnionFields s) (Types pkg) = Ok body →
  generate' env
  = ((fallback al).1,
     inl (header +:+ packageTemplate (flag_String env "pkg" "main")
          +:+ importTemplate (Join imports nl) +:+ body)).
Proof.
  intros Hargs Hload Herrs Hfind Hsize Himports Hbody.
  unfold generate. rewrite Hargs. simpl. rewrite Hload.
  rewrite (PrintErrors_none _ Herrs). simpl.
  rewrite Hfind, Hsize. simpl.
  pose proof (fallback_used al) as Hu.
  destruct (fallback al) as [w r]. simpl in Hu. subst r. simpl.
  rewrite Himports. simpl. rewrite Hbody. simpl.
  by rewrite !app_nil_r.
Qed.

Lemma StringUnion_returns uname size align fields pkg :
  align ≠ 0 →
  ∃ body, StringUnion' uname size align fields pkg = Ok body.
Proof.
  intros Hne. unfold StringUnion, storage, Int64.quo.
  rewrite decide_False by done. simpl. eauto.
Qed.

(** C9.  In a run that finds its template, the generated text declares the
    union under a name and in a package such that: when [-otype] is not given
    (or is empty) the name is the template name followed by ["Union"]; when
    [-pkg] is not given the package is ["main"]; and when [-output] is not
    given (or is empty) and the formatter accepts the text, the formatted
    text is printed to the standard output and the run ends with exit
    code 0.  Each default holds whatever the other flags are. *)
Theorem flag_defaults env T loc pkg pkgs s sz al imports :
  args env = [T; loc] →
  packages_Load env loc = (pkg :: pkgs, None) →
  Forall (λ p, Errors p = []) (pkg :: pkgs) →
  FindUnion pkg T = Some s →
  UnionSize s (TypesSizes pkg) = Ok (sz, al) →
  GetImports (UnionFields s) (Types pkg) = Ok imports →
  ∃ uname pname body buf,
    StringUnion' uname sz (used_alignment al) (UnionFields s) (Types pkg)
    = Ok body
    ∧ buf = header +:+ packageTemplate pname
            +:+ importTemplate (Join imports nl) +:+ body
    ∧ generate' env = ((fallback al).1, inl buf)
    ∧ (flags env !! "otype" = None ∨ flags env !! "otype" = Some EmptyString
       → uname = T +:+ "Union")
    ∧ (flags env !! "pkg" = None → pname = "main")
    ∧ (flags env !! "output" = None ∨ flags env !! "output" = Some EmptyString
       → ∀ output,
           format_Source env buf = inl output →
           main' env = ((fallback al).1 ++ [Stdout output], inl ())
           ∧ exit_code (main' env).2 = 0).
Proof.
  intros Hargs Hload Herrs Hfind Hsize Himports.
  pose proof (used_alignment_supported al) as Hu.
  destruct (StringUnion_returns (unionName env T) sz (used_alignment al)
              (UnionFields s) (Types pkg)) as [body Hbody].
  { apply supported_cases in Hu. lia. }
  pose proof (generate_buffer env T loc pkg pkgs s sz al imports body
                Hargs Hload Herrs Hfind Hsize Himports Hbody) as Hgen.
  exists (unionName env T), (flag_String env "pkg" "main"), body.
  eexists. split; [done|]. split; [done|]. split; [done|].
  split; [|split].
  - unfold unionName, flag_String. by intros [-> | ->].
  - unfold flag_String. by intros ->.
  - intros Hout output Hsrc.
    rewrite (main_finish _ _ _ _ _ _ _ _ _ Hgen).
    unfold finish. rewrite Hsrc. unfold flag_String.
    by destruct Hout as [-> | ->].
Qed.

End Defaults.

Lemma flag_defaults_witness :
  ∃ uname pname body buf,
    StringUnion exStruct exField exTypeString uname 4 (used_alignment 4)
      (UnionFields exampleTemplate) (Types (examplePackage stdSizes))
    = Ok body
    ∧ buf = exHeader +:+ exPackage pname
            +:+ exImport (Join [] nl) +:+ body
    ∧ exGenerate pkgOnlyEnv = ((fallback 4).1, inl buf)
    ∧ (flags pkgOnlyEnv !! "otype" = None
       ∨ flags pkgOnlyEnv !! "otype" = Some EmptyString
       → uname = "Template" +:+ "Union")
    ∧ (flags pkgOnlyEnv !! "pkg" = None → pname = "main")
    ∧ (flags pkgOnlyEnv !! "output" = None
       ∨ flags pkgOnlyEnv !! "output" = Some EmptyString
       → ∀ output,
           format_Source pkgOnlyEnv buf = inl output →
           exMain pkgOnlyEnv = ((fallback 4).1 ++ [Stdout output], inl ())
           ∧ exit_code (exMain pkgOnlyEnv).2 = 0).
Proof.
  apply (flag_defaults exHeader exPackage exImport exStruct exField
           exTypeString pkgOnlyEnv "Template" "."
           (examplePackage stdSizes) [] exampleTemplate 4 4 []).
  - reflexivity.
  - reflexivity.
  - repeat constructor.
  - reflexivity.
  - vm_compute. reflexivity.
  - reflexivity.
Defined.

(** With [-pkg=shapes] alone the union keeps its default name and the text
    goes to the standard output. *)
Lemma pkgOnlyEnv_run :
  exMain pkgOnlyEnv
  = ([Stdout (exHeader +:+ exPackage "shapes" +:+ exImport EmptyString
              +:+ exampleBody)],
     inl ()).
Proof. vm_compute. reflexivity. Qed.



(** ** The generated union *)

Lemma le_bytes_length width v : length (Union.le_bytes width v) = width.
Proof. revert v. induction width as [|w IH]; intros v; simpl; [done|by rewrite IH]. Qed.

Lemma le_value_le_bytes width v :
  Union.le_value (Union.le_bytes width v) = v `mod` 2 ^ (8 * Z.of_nat width).
Proof.
  revert v. induction width as [|w IH]; intros v.
  - simpl. by rewrite Z.mod_1_r.
  - cbn [Union.le_bytes Union.le_value]. rewrite IH.
    replace (8 * Z.of_nat (S w)) with (8 + 8 * Z.of_nat w) by lia.
    apply Z.bits_inj'. intros n Hn.
    rewrite Z.lor_spec, Z.land_spec, (Z.shiftl_spec _ _ n Hn).
    change 255 with (Z.ones 8).
    destruct (decide (n < 8)) as [H8|H8].
    + rewrite Z.ones_spec_low by lia.
      rewrite (Z.testbit_neg_r _ (n - 8)) by lia.
      rewrite Z.mod_pow2_bits_low by lia.
      by rewrite andb_true_r, orb_false_r.
    + rewrite Z.ones_spec_high by lia.
      rewrite andb_false_r, orb_false_l.
      destruct (decide (n < 8 + 8 * Z.of_nat w)) as [Hw|Hw].
      * rewrite !Z.mod_pow2_bits_low by lia.
        rewrite Z.shiftr_spec by lia. f_equal. lia.
      * by rewrite !Z.mod_pow2_bits_high by lia.
Qed.

(** A field read after its own write gives the value written, cut to the
    width of the field. *)
Lemma Get_Put width v u :
  Union.Get width (Union.Put width v u) = v `mod` 2 ^ (8 * Z.of_nat width).
Proof.
  unfold Union.Get, Union.Put. simpl.
  rewrite take_app_length' by (by rewrite le_bytes_length).
  apply le_value_le_bytes.
Qed.

(** A write through a field leaves the bytes above the field as they are. *)
Lemma Put_above width v u :
  drop width (Union.data (Union.Put width v u)) = drop width (Union.data u).
Proof.
  unfold Union.Put. simpl.
  by rewrite drop_app_length' by (by rewrite le_bytes_length).
Qed.

(** C6.  For the template [struct { i1 uint32; i2 uint16 }] the size and the
    alignment are 4 and the backing array is one [uint32].  After the writes
    of [0xdeadbeef] through [i1] and of [0xface] through [i2] the storage
    holds the bytes [ce fa ad de]: [i1] reads [0xdeadface] and [i2] reads
    [0xface], and the example program prints these values and the size and
    alignment 4. *)
Theorem example_overlay :
  UnionSize exampleTemplate stdSizes = Ok (4, 4)
  ∧ fallback 4 = ([], inl 4)
  ∧ storage 4 4 = Ok ("uint32", 1)
  ∧ (∃ u, Example.TemplateUnion stdSizes = Ok u
       ∧ Union.Sizeof u = 4
       ∧ Union.Alignof u = 4
       ∧ Union.data (Example.i1Put stdSizes 0xdeadbeef u)
         = [0xef; 0xbe; 0xad; 0xde]
       ∧ Union.data (Example.i2Put stdSizes 0xface
                       (Example.i1Put stdSizes 0xdeadbeef u))
         = [0xce; 0xfa; 0xad; 0xde]
       ∧ Example.i1 stdSizes (Example.i2Put stdSizes 0xface
                                (Example.i1Put stdSizes 0xdeadbeef u))
         = 0xdeadface
       ∧ Example.i2 stdSizes (Example.i2Put stdSizes 0xface
                                (Example.i1Put stdSizes 0xdeadbeef u))
         = 0xface)
  ∧ Example.main stdSizes
    = ([Stdout ("i1: 0xdeadface" +:+ nl); Stdout ("i2: 0xface" +:+ nl);
        Stdout ("size: 4" +:+ nl); Stdout ("align: 4" +:+ nl)],
       inl ()).
Proof.
  split; [vm_compute; reflexivity|].
  split; [vm_compute; reflexivity|].
  split; [vm_compute; reflexivity|].
  split; [|vm_compute; reflexivity].
  exists (Union.zero 4 1). repeat split; vm_compute; reflexivity.
Qed.

(** * Further results *)

(** ** FindUnion *)

Lemma find_struct_cons d defs name :
  (∃ s, declares name s d ∧ find_struct (d :: defs) name = Some s)
  ∨ ((∀ s, ¬ declares name s d)
     ∧ find_struct (d :: defs) name = find_struct defs name).
Proof.
  destruct d as [o|]; simpl.
  - case_bool_decide as Hn.
    + destruct (Underlying (object_type o)) eqn:E;
        try (right; split; [intros s' (o' & [= <-] & _ & Hs); congruence|done]).
      left. eexists. split; [|done]. by exists o.
    + right. split; [|done]. intros s' (o' & [= <-] & Hs & _). done.
  - right. split; [|done]. by intros s' (o' & [=] & _).
Qed.

(** X1.  [FindUnion] returns nil exactly when no object of the package has
    the given name and a struct type underneath: nil entries, objects of other
    names and objects of that name that are not structs are all passed
    over. *)
Theorem FindUnion_none pkg name :
  FindUnion pkg name = None
  ↔ ∀ d s, d ∈ Defs pkg → ¬ declares name s d.
Proof.
  unfold FindUnion. induction (Defs pkg) as [|d defs IH].
  - split; [|done]. intros _ d s Hd. by apply elem_of_nil in Hd.
  - destruct (find_struct_cons d defs name) as [(s & Hs & ->)|[Hd ->]].
    + split; [done|]. intros H. destruct (H d s); [left|done].
    + rewrite IH. split.
      * intros H d' s' [->|Hin]%elem_of_cons; [apply Hd|by apply H].
      * intros H d' s' Hin. apply H. by right.
Qed.

(** X2.  [FindUnion] returns the struct of the first object, in the order of
    the loop, that has the given name and a struct type underneath. *)
Theorem FindUnion_first pkg name s :
  FindUnion pkg name = Some s
  ↔ ∃ defs1 d defs2,
      Defs pkg = defs1 ++ d :: defs2
      ∧ (∀ d' s', d' ∈ defs1 → ¬ declares name s' d')
      ∧ declares name s d.
Proof.
  unfold FindUnion. induction (Defs pkg) as [|d defs IH].
  - split; [done|]. intros (defs1 & d & defs2 & H & _).
    by destruct defs1.
  - destruct (find_struct_cons d defs name) as [(s0 & Hs & ->)|[Hd ->]].
    + split.
      * intros [= <-]. exists [], d, defs. split; [done|]. split; [|done].
        intros d' s' Hin. by apply elem_of_nil in Hin.
      * intros (defs1 & d1 & defs2 & H & Hno & Hd1).
        destruct defs1 as [|d0 defs1]; simplify_eq/=.
        -- destruct Hs as (o & -> & _ & Ho), Hd1 as (o' & [= <-] & _ & Ho').
           congruence.
        -- destruct (Hno d0 s0); [left|done].
    + rewrite IH. split.
      * intros (defs1 & d1 & defs2 & -> & Hno & Hd1).
        exists (d :: defs1), d1, defs2. split; [done|]. split; [|done].
        intros d' s' [->|Hin]%elem_of_cons; [apply Hd|by apply Hno].
      * intros (defs1 & d1 & defs2 & H & Hno & Hd1).
        destruct defs1 as [|d0 defs1]; simplify_eq/=.
        -- by destruct (Hd s).
        -- exists defs1, d1, defs2. split; [done|]. split; [|done].
           intros d' s' Hin. apply Hno. by right.
Qed.

(** In [shadowedPackage] the variable called [Template] is passed over and
    the first of the two struct types is found. *)
Lemma FindUnion_shadowed :
  FindUnion shadowedPackage "Template" = Some exampleTemplate
  ∧ FindUnion shadowedPackage "Missing" = None.
Proof. split; reflexivity. Qed.

(** ** UnionSize *)

Lemma scan_step_comm lookup acc f g :
  scan_step lookup (scan_step lookup acc f) g
  = scan_step lookup (scan_step lookup acc g) f.
Proof.
  destruct acc as [m a]. unfold scan_step.
  repeat case_bool_decide; f_equal; lia.
Qed.

Lemma scan_permutation lookup s1 s2 :
  s1 ≡ₚ s2 → scan lookup s1 = scan lookup s2.
Proof.
  unfold scan. generalize (0, 0). intros acc H. revert acc.
  induction H as [|f s1 s2 _ IH|f g s|s1 s2 s3 _ IH1 _ IH2]; intros acc; simpl.
  - done.
  - apply IH.
  - by rewrite scan_step_comm.
  - by rewrite IH1.
Qed.

(** X3.  The layout does not depend on the order of the fields: templates
    that are permutations of each other get the same result from [UnionSize],
    panic included. *)
Theorem UnionSize_permutation s1 s2 lookup :
  s1 ≡ₚ s2 → UnionSize s1 lookup = UnionSize s2 lookup.
Proof. intros H. unfold UnionSize. by rewrite (scan_permutation _ _ _ H). Qed.

Lemma UnionSize_permutation_witness :
  UnionSize oddTemplate stdSizes = UnionSize (reverse oddTemplate) stdSizes.
Proof.
  apply (UnionSize_permutation oddTemplate (reverse oddTemplate) stdSizes).
  symmetry. apply reverse_Permutation.
Defined.

Lemma scan_align lookup s m a :
  scan lookup s = (m, a) →
  0 ≤ a ∧ Forall (λ x, x ≤ a) (aligns_of lookup s)
  ∧ (a = 0 ∨ a ∈ aligns_of lookup s).
Proof.
  intros H. apply scan_acc in H as [_ (Ha1 & Ha2 & Ha3)].
  split; [done|]. split; [by apply Forall_forall|done].
Qed.

(** X4.  [UnionSize] panics, with a division by zero, exactly when no field
    has a positive alignment (in particular when there is no field). *)
Theorem UnionSize_panics s lookup :
  UnionSize s lookup = Panic divide_error
  ↔ Forall (λ a, a ≤ 0) (aligns_of lookup s).
Proof.
  unfold UnionSize. destruct (scan lookup s) as [m a] eqn:E.
  apply scan_align in E as (Ha0 & Hall & Hin).
  unfold Int64.rem. destruct (decide (a = 0)) as [->|Hne]; simpl.
  - split; [done|]. by intros _.
  - split.
    + by destruct (bool_decide _).
    + intros Hle. destruct Hin as [?|Hin]; [done|].
      rewrite Forall_forall in Hle. specialize (Hle _ Hin). lia.
Qed.

(** X5.  Whenever [UnionSize] returns, the alignment it returns is positive,
    is the alignment of one of the fields, and is at least the alignment of
    every field; no bound on the sizes is needed for that. *)
Theorem UnionSize_alignment s lookup sz al :
  UnionSize s lookup = Ok (sz, al) →
  0 < al
  ∧ al ∈ aligns_of lookup s
  ∧ Forall (λ a, a ≤ al) (aligns_of lookup s).
Proof.
  unfold UnionSize. destruct (scan lookup s) as [m a] eqn:E.
  apply scan_align in E as (Ha0 & Hall & Hin).
  unfold Int64.rem. destruct (decide (a = 0)) as [->|Hne]; simpl; [done|].
  intros H. assert (al = a) as -> by (destruct (bool_decide _); by inversion H).
  destruct Hin as [?|Hin]; [done|]. split; [lia|done].
Qed.

Lemma UnionSize_alignment_witness :
  0 < 4
  ∧ 4 ∈ aligns_of stdSizes oddTemplate
  ∧ Forall (λ a, a ≤ 4) (aligns_of stdSizes oddTemplate).
Proof.
  apply (UnionSize_alignment oddTemplate stdSizes 8 4).
  vm_compute. reflexivity.
Defined.

(** ** GetImports *)

Lemma imports_step_acc pkg imports f :
  imports_step pkg imports f
  = r ← imports_step pkg [] f; mret (imports ++ r).
Proof.
  unfold imports_step. destruct (typ f) as [|n p u| | | | | | | |];
    simpl; try by rewrite app_nil_r.
  destruct (negb _); simpl; [|by rewrite app_nil_r].
  by destruct (Path p).
Qed.

Lemma imports_loop_acc pkg imports fields :
  imports_loop pkg imports fields
  = r ← imports_loop pkg [] fields; mret (imports ++ r).
Proof.
  revert imports. induction fields as [|f fields IH]; intros imports; simpl.
  - by rewrite app_nil_r.
  - rewrite imports_step_acc.
    destruct (imports_step pkg [] f) as [r|msg]; simpl; [|done].
    rewrite (IH (imports ++ r)), (IH r).
    destruct (imports_loop pkg [] fields); simpl; [|done].
    by rewrite app_assoc.
Qed.

Lemma imports_loop_app pkg imports fields1 fields2 :
  imports_loop pkg imports (fields1 ++ fields2)
  = imports' ← imports_loop pkg imports fields1;
    imports_loop pkg imports' fields2.
Proof.
  revert imports. induction fields1 as [|f fields1 IH]; intros imports; simpl.
  - done.
  - destruct (imports_step pkg imports f); simpl; [apply IH|done].
Qed.

(** X6.  The imports of a field list split in two are the imports of the
    first part followed by those of the second; a panic in either part is a
    panic of the whole. *)
Theorem GetImports_app fields1 fields2 pkg :
  GetImports (fields1 ++ fields2) pkg
  = imports1 ← GetImports fields1 pkg;
    imports2 ← GetImports fields2 pkg;
    mret (imports1 ++ imports2).
Proof.
  unfold GetImports. rewrite imports_loop_app.
  destruct (imports_loop pkg [] fields1) as [imports1|msg]; simpl; [|done].
  apply imports_loop_acc.
Qed.

Lemma imports_step_panics pkg imports f :
  imports_step pkg imports f = Panic nil_error ↔ pkg ≠ None ∧ ¬ owned f.
Proof.
  unfold imports_step, owned.
  destruct (typ f) as [|n [p|] u| | | | | | | |]; simpl;
    try (split; [done|tauto]).
  - destruct (negb _); simpl; (split; [done|tauto]).
  - destruct pkg as [home|]; simpl.
    + split; [|done]. intros _. split; [done|tauto].
    + split; [done|]. by intros [? _].
Qed.

Lemma imports_step_result pkg imports f :
  (∃ imports', imports_step pkg imports f = Ok imports')
  ∨ imports_step pkg imports f = Panic nil_error.
Proof.
  unfold imports_step. destruct (typ f) as [|n [p|] u| | | | | | | |];
    simpl; eauto.
  - destruct (negb _); simpl; eauto.
  - destruct (negb _); simpl; eauto.
Qed.

Lemma imports_loop_panics pkg imports fields :
  imports_loop pkg imports fields = Panic nil_error
  ↔ pkg ≠ None ∧ Exists (λ f, ¬ owned f) fields.
Proof.
  revert imports. induction fields as [|f fields IH]; intros imports; simpl.
  - split; [done|]. intros [_ H]. by apply Exists_nil in H.
  - rewrite Exists_cons.
    destruct (imports_step_result pkg imports f) as [[imports' E]|E].
    + rewrite E. simpl. rewrite IH.
      assert (¬ (pkg ≠ None ∧ ¬ owned f)) as Hf.
      { rewrite <-(imports_step_panics pkg imports f), E. done. }
      tauto.
    + rewrite E. simpl. apply imports_step_panics in E. tauto.
Qed.

(** X7.  [GetImports] panics, on a nil pointer, exactly when the home package
    is not nil and some field has a defined type of the universe scope, such
    as [error]: the package of such a type is nil and its path is asked
    for. *)
Theorem GetImports_panics fields pkg :
  GetImports fields pkg = Panic nil_error
  ↔ pkg ≠ None ∧ Exists (λ f, ¬ owned f) fields.
Proof. apply imports_loop_panics. Qed.

(** A field of type [error] makes [GetImports] panic. *)
Lemma GetImports_error_field :
  GetImports errorFields (Some mainPkg) = Panic nil_error
  ∧ GetImports errorFields None = Ok [import_line xPkg].
Proof. split; reflexivity. Qed.

Lemma imports_step_external pkg imports f imports' :
  imports_step pkg imports f = Ok imports' →
  imports' = imports ++ (import_line <$> option_list (external pkg f)).
Proof.
  unfold imports_step, external, import_line.
  destruct (typ f) as [|n [p|] u| | | | | | | |]; simpl;
    try (intros [= <-]; by rewrite app_nil_r).
  - destruct (pkg_eqb pkg (Some p)); simpl; intros [= <-];
      [by rewrite app_nil_r|done].
  - destruct (negb _); simpl; [done|].
    intros [= <-]. by rewrite app_nil_r.
Qed.

Lemma imports_loop_external pkg imports fields result :
  imports_loop pkg imports fields = Ok result →
  result = imports ++ (import_line <$> omap (external pkg) fields).
Proof.
  revert imports. induction fields as [|f fields IH]; intros imports; simpl.
  - intros [= <-]. by rewrite app_nil_r.
  - destruct (imports_step pkg imports f) as [imports'|] eqn:E; simpl; [|done].
    intros H. apply IH in H as ->. apply imports_step_external in E as ->.
    destruct (external pkg f); simpl; by rewrite <-?app_assoc.
Qed.

Lemma omap_length {A B} (g : A → option B) (l : list A) :
  (length (omap g l) ≤ length l)%nat.
Proof.
  induction l as [|x l IH]; [done|].
  change (omap g (x :: l))
    with (from_option (λ y, y :: omap g l) (omap g l) (g x)).
  destruct (g x); simpl; lia.
Qed.

Lemma external_field pkg f p :
  external pkg f = Some p →
  pkg_eqb pkg (Some p) = false
  ∧ ∃ n u, typ f = Named n (Some p) u.
Proof.
  unfold external. destruct (typ f) as [|n [q|] u| | | | | | | |]; try done.
  destruct (pkg_eqb pkg (Some q)) eqn:E; [done|].
  intros [= <-]. eauto.
Qed.

(** X8.  Whenever [GetImports] returns, it returns at most one entry per
    field, and every entry is the quoted path of the package of some field's
    defined type, a package that is not the home package: the home package is
    never imported. *)
Theorem GetImports_entries fields pkg imports :
  GetImports fields pkg = Ok imports →
  (length imports ≤ length fields)%nat
  ∧ ∀ l, l ∈ imports →
      ∃ f p n u, f ∈ fields ∧ typ f = Named n (Some p) u
                 ∧ pkg_eqb pkg (Some p) = false
                 ∧ l = dquote +:+ pkg_path p +:+ dquote.
Proof.
  intros H. apply imports_loop_external in H as ->. simpl. split.
  - rewrite length_fmap. apply omap_length.
  - intros l (p & -> & Hp)%list_elem_of_fmap.
    apply list_elem_of_omap in Hp as (f & Hf & Hext).
    destruct (external_field _ _ _ Hext) as (Hne & n & u & Ht).
    by exists f, p, n, u.
Qed.

Lemma GetImports_entries_witness :
  (length [import_line xPkg; import_line xPkg] ≤ length mixedFields)%nat
  ∧ ∀ l, l ∈ [import_line xPkg; import_line xPkg] →
      ∃ f p n u, f ∈ mixedFields ∧ typ f = Named n (Some p) u
                 ∧ pkg_eqb (Some mainPkg) (Some p) = false
                 ∧ l = dquote +:+ pkg_path p +:+ dquote.
Proof.
  apply (GetImports_entries mixedFields (Some mainPkg)). reflexivity.
Defined.

(** ** StringUnion and the fallback *)

Lemma append_assoc (s1 s2 s3 : string) :
  (s1 +:+ s2) +:+ s3 = s1 +:+ (s2 +:+ s3).
Proof.
  induction s1 as [|c s1 IH]; [done|].
  exact (f_equal (String c) IH).
Qed.

Lemma append_empty_r (s : string) : s +:+ EmptyString = s.
Proof.
  induction s as [|c s IH]; [done|].
  exact (f_equal (String c) IH).
Qed.

Section Text.
Variable structTemplate : string → Z → string → string.
Variable fieldTemplate : string → string → string → string.
Variable TypeString : Type_ → Qualifier → string.

Local Abbreviation StringUnion' :=
  (StringUnion structTemplate fieldTemplate TypeString).

Lemma accessors_fold uname pkg s fields :
  foldl (λ s '(Build_Field fname ftyp),
           s +:+ fieldTemplate uname fname (TypeString ftyp (qual pkg)))
        s fields
  = s +:+ concat_text
            ((λ f, fieldTemplate uname (name f)
                     (TypeString (typ f) (qual pkg))) <$> fields).
Proof.
  revert s. induction fields as [|[fname ftyp] fields IH]; intros s; simpl.
  - by rewrite append_empty_r.
  - rewrite IH. apply append_assoc.
Qed.

(** X9.  [StringUnion] panics exactly when the alignment is zero.  Otherwise
    its text is the struct declaration, for the element count [size / align]
    and the element type the table gives for [align] (the empty string when
    there is none), followed by the accessors of the fields in the order of
    the fields, each printed for the union name, the field name and the
    field's type as seen from the home package. *)
Theorem StringUnion_text uname size align fields pkg :
  StringUnion' uname size align fields pkg
  = if decide (align = 0) then Panic divide_error
    else Ok (structTemplate uname (Int64.wrap (size `quot` align))
               (default EmptyString (alignments !! align))
             +:+ concat_text
                   ((λ f, fieldTemplate uname (name f)
                            (TypeString (typ f) (qual pkg))) <$> fields)).
Proof.
  unfold StringUnion, storage, Int64.quo.
  destruct (decide (align = 0)) as [E|E]; simpl; [done|].
  f_equal. apply accessors_fold.
Qed.

(** X10.  Called with an alignment that is no key of the table (and not
    zero), [StringUnion] does not fail, whatever the fields are: it declares
    the backing array with an empty element type and prints the accessors of
    all the fields after it.  Only the fallback of [main] keeps such an
    alignment away from it. *)
Theorem StringUnion_missing_key uname size align fields pkg :
  align ∉ [1; 2; 4; 8] → align ≠ 0 →
  StringUnion' uname size align fields pkg
  = Ok (structTemplate uname (Int64.wrap (size `quot` align)) EmptyString
        +:+ concat_text
              ((λ f, fieldTemplate uname (name f)
                       (TypeString (typ f) (qual pkg))) <$> fields)).
Proof.
  intros Hkey Hne. unfold StringUnion, storage, Int64.quo.
  rewrite decide_False by done. rewrite alignments_unsupported by done.
  simpl. f_equal. apply accessors_fold.
Qed.
End Text.

Lemma StringUnion_missing_key_witness :
  StringUnion exStruct exField exTypeString "U" 32 16 mixedFields
    (Some mainPkg)
  = Ok (exStruct "U" (Int64.wrap (32 `quot` 16)) EmptyString
        +:+ concat_text
              ((λ f, exField "U" (name f)
                       (exTypeString (typ f) (qual (Some mainPkg))))
                 <$> mixedFields)).
Proof.
  apply (StringUnion_missing_key exStruct exField exTypeString "U" 32 16
           mixedFields (Some mainPkg)).
  - apply (bool_decide_unpack _). vm_compute. exact I.
  - discriminate.
Defined.

(** X11.  Whatever alignment [UnionSize] computed, the alignment [main]
    passes on after the fallback is 1, 2, 4 or 8, the table has an element
    type for it, and the division of the size by it does not panic; the
    fallback writes at most one line. *)
Theorem fallback_supported size align :
  ∃ a typ,
    (fallback align).2 = inl a
    ∧ a ∈ [1; 2; 4; 8]
    ∧ alignments !! a = Some typ
    ∧ storage size a = Ok (typ, Int64.wrap (size `quot` a))
    ∧ (length (fallback align).1 ≤ 1)%nat.
Proof.
  pose proof (used_alignment_supported align) as Hu.
  destruct (alignments_supported _ Hu) as [typ Htyp].
  exists (used_alignment align), typ.
  split; [apply fallback_used|]. split; [done|]. split; [done|]. split.
  - unfold storage, Int64.quo. rewrite Htyp.
    apply supported_cases in Hu. rewrite decide_False by lia. done.
  - rewrite fallback_spec. destruct (decide _); simpl; lia.
Qed.

(** ** The failures of main *)

Lemma PrintErrors_spec pkgs :
  PrintErrors pkgs
  = ((λ e, Stderr (e +:+ nl)) <$> concat (Errors <$> pkgs),
     inl (Z.of_nat (length (concat (Errors <$> pkgs))))).
Proof.
  unfold PrintErrors. generalize (length (concat (Errors <$> pkgs))).
  intros n. induction (concat (Errors <$> pkgs)) as [|e errs IH]; [done|].
  cbn [foldr fmap list_fmap]. rewrite IH. done.
Qed.

Section Failures.
Variable header : string.
Variable packageTemplate : string → string.
Variable importTemplate : string → string.
Variable structTemplate : string → Z → string → string.
Variable fieldTemplate : string → string → string → string.
Variable TypeString : Type_ → Qualifier → string.

Local Abbreviation generate' :=
  (generate header packageTemplate importTemplate structTemplate
     fieldTemplate TypeString).
Local Abbreviation main' :=
  (main header packageTemplate importTemplate structTemplate
     fieldTemplate TypeString).
Local Abbreviation StringUnion' :=
  (StringUnion structTemplate fieldTemplate TypeString).

Lemma main_stops env t st :
  generate' env = (t, inr st) → main' env = (t, inr st).
Proof. intros H. unfold main. by rewrite H. Qed.

(** X12.  Once [flag.Parse] has returned (the flags were well formed and no
    help was asked for), if the number of remaining arguments is not two,
    [main] reports it on the standard error, prints the six usage lines to
    the standard output and the flag defaults to the standard error, and
    exits with code 1; nothing is loaded.  The runs that end inside
    [flag.Parse] are not runs of this model, whose input is what
    [flag.Parse] leaves. *)
Theorem main_wrong_arguments env :
  length (args env) ≠ 2%nat →
  main' env
  = ([Stderr ("Invalid number of arguments: need union and package." +:+ nl);
      Stdout ("Usage of unionize:" +:+ nl);
      Stdout ((tab +:+ "unionize [flags] T [directory]") +:+ nl);
      Stdout ((tab +:+ "unionize [flags] T files...") +:+ nl);
      Stdout ("For more information, see:" +:+ nl);
      Stdout ((tab +:+ "https://github.com/zyedidia/unionize") +:+ nl);
      Stdout ("Flags:" +:+ nl);
      Stderr (flag_PrintDefaults env)],
     inr (Exit 1)).
Proof.
  intros H. apply main_stops. unfold generate.
  rewrite (bool_decide_true (length (args env) ≠ 2%nat)) by done.
  reflexivity.
Qed.

(** X13.  When [packages.Load] returns an error, [main] writes the line
    [load: ] with the error to the standard error and exits with code 1. *)
Theorem main_load_error env T loc pkgs e :
  args env = [T; loc] →
  packages_Load env loc = (pkgs, Some e) →
  main' env = ([Stderr ("load: " +:+ e +:+ nl)], inr (Exit 1)).
Proof.
  intros Hargs Hload. apply main_stops. unfold generate.
  rewrite Hargs. simpl. by rewrite Hload.
Qed.

(** X14.  When the loaded packages carry errors, [main] prints each of them
    on a line of the standard error, in order, and exits with code 1. *)
Theorem main_package_errors env T loc pkgs :
  args env = [T; loc] →
  packages_Load env loc = (pkgs, None) →
  concat (Errors <$> pkgs) ≠ [] →
  main' env
  = ((λ e, Stderr (e +:+ nl)) <$> concat (Errors <$> pkgs), inr (Exit 1)).
Proof.
  intros Hargs Hload Herrs. apply main_stops. unfold generate.
  rewrite Hargs. simpl. rewrite Hload, PrintErrors_spec. simpl.
  rewrite (bool_decide_true (Z.of_nat _ > 0)).
  - simpl. by rewrite app_nil_r.
  - destruct (concat (Errors <$> pkgs)); [done|]. simpl. lia.
Qed.

(** X15.  When the pattern matches no package, [main] writes
    [Error: no package found] to the standard error and exits with code 1. *)
Theorem main_no_package env T loc :
  args env = [T; loc] →
  packages_Load env loc = ([], None) →
  main' env = ([Stderr ("Error: no package found" +:+ nl)], inr (Exit 1)).
Proof.
  intros Hargs Hload. apply main_stops. unfold generate.
  rewrite Hargs. simpl. by rewrite Hload.
Qed.

(** X16.  When the first package declares no struct of the asked name,
    [main] writes [Error: could not find struct to unionize] to the standard
    error and exits with code 1; packages after the first are not searched. *)
Theorem main_struct_not_found env T loc pkg pkgs :
  args env = [T; loc] →
  packages_Load env loc = (pkg :: pkgs, None) →
  Forall (λ p, Errors p = []) (pkg :: pkgs) →
  FindUnion pkg T = None →
  main' env
  = ([Stderr ("Error: could not find struct to unionize" +:+ nl)],
     inr (Exit 1)).
Proof.
  intros Hargs Hload Herrs Hfind. apply main_stops. unfold generate.
  rewrite Hargs. simpl. rewrite Hload, (PrintErrors_none _ Herrs). simpl.
  by rewrite Hfind.
Qed.

(** X17.  When the template has a field whose type is a defined type of the
    universe scope, such as [error], [main] ends in the nil-pointer panic of
    [GetImports]: exit code 2, after the warning of the fallback if there is
    one, and no text is generated. *)
Theorem main_universe_type env T loc pkg pkgs s sz al :
  args env = [T; loc] →
  packages_Load env loc = (pkg :: pkgs, None) →
  Forall (λ p, Errors p = []) (pkg :: pkgs) →
  FindUnion pkg T = Some s →
  UnionSize s (TypesSizes pkg) = Ok (sz, al) →
  Types pkg ≠ None →
  Exists (λ f, ¬ owned f) (UnionFields s) →
  main' env = ((fallback al).1, inr (Crash nil_error))
  ∧ exit_code (main' env).2 = 2.
Proof.
  intros Hargs Hload Herrs Hfind Hsize Hhome Hex.
  assert (GetImports (UnionFields s) (Types pkg) = Panic nil_error) as Himp
    by (by apply imports_loop_panics).
  assert (generate' env = ((fallback al).1, inr (Crash nil_error))) as Hgen.
  { unfold generate. rewrite Hargs. simpl.
    rewrite Hload, (PrintErrors_none _ Herrs). simpl.
    rewrite Hfind, Hsize. simpl.
    pose proof (fallback_used al) as Hu.
    destruct (fallback al) as [w r]. simpl in Hu. subst r. simpl.
    rewrite Himp. simpl. by rewrite app_nil_r. }
  by rewrite (main_stops _ _ _ Hgen).
Qed.
End Failures.

Lemma main_wrong_arguments_witness :
  exMain noArgsEnv
  = ([Stderr ("Invalid number of arguments: need union and package." +:+ nl);
      Stdout ("Usage of unionize:" +:+ nl);
      Stdout ((tab +:+ "unionize [flags] T [directory]") +:+ nl);
      Stdout ((tab +:+ "unionize [flags] T files...") +:+ nl);
      Stdout ("For more information, see:" +:+ nl);
      Stdout ((tab +:+ "https://github.com/zyedidia/unionize") +:+ nl);
      Stdout ("Flags:" +:+ nl);
      Stderr (flag_PrintDefaults noArgsEnv)],
     inr (Exit 1)).
Proof.
  apply (main_wrong_arguments exHeader exPackage exImport exStruct exField
           exTypeString noArgsEnv).
  discriminate.
Defined.

Lemma main_load_error_witness :
  exMain loadErrorEnv
  = ([Stderr ("load: " +:+ "no such directory" +:+ nl)], inr (Exit 1)).
Proof.
  apply (main_load_error exHeader exPackage exImport exStruct exField
           exTypeString loadErrorEnv "Template" "./missing" []);
    reflexivity.
Defined.

Lemma main_package_errors_witness :
  exMain brokenEnv
  = ([Stderr ("a.go:1:1: expected package" +:+ nl);
      Stderr ("b.go:2:3: syntax" +:+ nl)],
     inr (Exit 1)).
Proof.
  apply (main_package_errors exHeader exPackage exImport exStruct exField
           exTypeString brokenEnv "Template" "."
           (packages_Load brokenEnv ".").1);
    [reflexivity|reflexivity|discriminate].
Defined.

Lemma main_no_package_witness :
  exMain noPackageEnv
  = ([Stderr ("Error: no package found" +:+ nl)], inr (Exit 1)).
Proof.
  apply (main_no_package exHeader exPackage exImport exStruct exField
           exTypeString noPackageEnv "Template" ".");
    reflexivity.
Defined.

Lemma main_struct_not_found_witness :
  exMain missingStructEnv
  = ([Stderr ("Error: could not find struct to unionize" +:+ nl)],
     inr (Exit 1)).
Proof.
  apply (main_struct_not_found exHeader exPackage exImport exStruct exField
           exTypeString missingStructEnv "Missing" "."
           (examplePackage stdSizes) []).
  - reflexivity.
  - reflexivity.
  - repeat constructor.
  - reflexivity.
Defined.

Lemma main_universe_type_witness :
  exMain errorFieldEnv = ((fallback 8).1, inr (Crash nil_error))
  ∧ exit_code (exMain errorFieldEnv).2 = 2.
Proof.
  apply (main_universe_type exHeader exPackage exImport exStruct exField
           exTypeString errorFieldEnv "Template" "." errorPackage []
           [("i1", Basic Uint32);
            ("err", Named "error" None (Interface ["Error"]))] 16 8).
  - reflexivity.
  - reflexivity.
  - repeat constructor.
  - reflexivity.
  - vm_compute. reflexivity.
  - discriminate.
  - apply Exists_cons_tl, Exists_cons_hd. simpl. tauto.
Defined.

(** ** What main never does *)

Lemma early_ret {A} (a : A) : early_exit (mret a : IO A).
Proof. split; [constructor|done]. Qed.

Lemma early_bind {A B} (m : IO A) (f : A → IO B) :
  early_exit m → (∀ a, early_exit (f a)) → early_exit (m ≫= f).
Proof.
  destruct m as [t [a|st]]; intros [Ht Hst] Hf; simpl in *.
  - specialize (Hf a). destruct (f a) as [t' r]. destruct Hf as [Ht' Hr].
    simpl in *. split; [by apply Forall_app|done].
  - done.
Qed.

Lemma early_print s : early_exit (print s).
Proof. split; [repeat constructor; tauto|done]. Qed.

Lemma early_println s : early_exit (println s).
Proof. split; [repeat constructor; tauto|done]. Qed.

Lemma early_eprint s : early_exit (eprint s).
Proof. split; [repeat constructor; tauto|done]. Qed.

Lemma early_exit_1 {A} : early_exit (exit 1 : IO A).
Proof. split; [constructor|done]. Qed.

Lemma early_run_result {A} (r : result A) : early_exit (run_result r).
Proof. destruct r; (split; [constructor|done]). Qed.

Lemma early_index {A} (l : list A) i : early_exit (index l i).
Proof. unfold index. destruct (l !! i); (split; [constructor|done]). Qed.

Lemma early_when b m : early_exit m → early_exit (when b m).
Proof. intros H. destruct b; [done|apply early_ret]. Qed.

Lemma early_fallback align : early_exit (fallback align).
Proof.
  rewrite fallback_spec.
  destruct (decide _); (split; [repeat constructor; tauto|done]).
Qed.

Lemma early_PrintErrors pkgs : early_exit (PrintErrors pkgs).
Proof.
  rewrite PrintErrors_spec. split; [|done]. simpl.
  apply Forall_fmap, Forall_true. intros e. simpl. tauto.
Qed.

Lemma early_Usage env : early_exit (Usage env).
Proof.
  unfold Usage.
  repeat (apply early_bind; [apply early_println|intros _]).
  apply early_eprint.
Qed.

Lemma filter_is_file_nil (t : list event) :
  Forall (λ e, ¬ is_file e) t → filter is_file t = [].
Proof.
  induction 1 as [|e t He _ IH]; [done|].
  by rewrite filter_cons, decide_False.
Qed.

Section Outcome.
Variable header : string.
Variable packageTemplate : string → string.
Variable importTemplate : string → string.
Variable structTemplate : string → Z → string → string.
Variable fieldTemplate : string → string → string → string.
Variable TypeString : Type_ → Qualifier → string.

Local Abbreviation generate' :=
  (generate header packageTemplate importTemplate structTemplate
     fieldTemplate TypeString).
Local Abbreviation main' :=
  (main header packageTemplate importTemplate structTemplate
     fieldTemplate TypeString).
Local Abbreviation StringUnion' :=
  (StringUnion structTemplate fieldTemplate TypeString).

Lemma early_generate env : early_exit (generate' env).
Proof.
  unfold generate.
  apply early_bind; [|intros _].
  { apply early_when. apply early_bind; [apply early_eprint|intros _].
    apply early_bind; [apply early_Usage|intros _]. apply early_exit_1. }
  apply early_bind; [apply early_index|intros arg1].
  destruct (packages_Load env arg1) as [pkgs [e|]].
  { apply early_bind; [apply early_eprint|intros _]. apply early_exit_1. }
  apply early_bind; [apply early_PrintErrors|intros n].
  apply early_bind; [apply early_when, early_exit_1|intros _].
  apply early_bind; [|intros _].
  { apply early_when. apply early_bind; [apply early_eprint|intros _].
    apply early_exit_1. }
  apply early_bind; [apply early_index|intros pkg].
  apply early_bind; [apply early_index|intros arg0].
  destruct (FindUnion pkg arg0) as [strct|].
  - apply early_bind; [apply early_run_result|intros [sz align]].
    apply early_bind; [apply early_fallback|intros align'].
    apply early_bind; [apply early_run_result|intros imports].
    apply early_bind; [apply early_run_result|intros body].
    apply early_ret.
  - apply early_bind; [apply early_eprint|intros _]. apply early_exit_1.
Qed.

(** X18.  For every input, [main] ends with exit code 0, 1 or 2; it calls
    [ioutil.WriteFile] at most once; and it calls it only in a run that then
    returns normally: a run that exits with 1 or panics has written no
    file. *)
Theorem main_outcome env :
  exit_code (main' env).2 ∈ [0; 1; 2]
  ∧ (length (filter is_file (main' env).1) ≤ 1)%nat
  ∧ ((main' env).2 = inl () ∨ Forall (λ e, ¬ is_file e) (main' env).1).
Proof.
  destruct (early_generate env) as [Ht Hst].
  unfold main. destruct (generate' env) as [t [buf|st]]; simpl in *.
  - unfold finish. destruct (format_Source env buf) as [output|e]; simpl.
    + case_bool_decide; simpl.
      * rewrite filter_app, (filter_is_file_nil _ Ht). simpl.
        split; [set_solver|]. split; [done|by left].
      * rewrite filter_app, (filter_is_file_nil _ Ht). simpl.
        split; [set_solver|]. split; [lia|by left].
    + rewrite filter_app, (filter_is_file_nil _ Ht). simpl.
      split; [set_solver|]. split; [lia|]. right.
      apply Forall_app. split; [done|]. repeat constructor; simpl; tauto.
  - rewrite (filter_is_file_nil _ Ht). simpl.
    split; [|split; [lia|by right]].
    destruct st as [code|msg]; simpl; [subst code|]; set_solver.
Qed.

(** X19.  In a run whose text the formatter accepts, [main] ends with one
    more event and returns normally: with [-output] set to a non-empty name
    it is the call of [ioutil.WriteFile] for that file, with the formatted
    text and mode 0666, whatever that call returns; without [-output], or
    with an empty name, it is the formatted text on the standard output. *)
Theorem main_destination env t buf output :
  generate' env = (t, inl buf) →
  format_Source env buf = inl output →
  main' env
  = (t ++ [match flags env !! "output" with
           | Some file =>
               if decide (file = EmptyString) then Stdout output
               else FileWrite file output 438
                      (ioutil_WriteFile env file output 438)
           | None => Stdout output
           end],
     inl ()).
Proof.
  intros Hgen Hsrc.
  rewrite (main_finish _ _ _ _ _ _ _ _ _ Hgen). unfold finish, flag_String.
  rewrite Hsrc. destruct (flags env !! "output") as [file|]; simpl.
  - destruct (decide (file = EmptyString)) as [->|Hne]; [done|].
    by rewrite bool_decide_true.
  - done.
Qed.

(** X20.  With [-otype] set to a non-empty name and [-pkg] set, the union is
    generated under the name [-otype] gives and the package clause names the
    package [-pkg] gives. *)
Theorem flag_overrides env T loc pkg pkgs s sz al imports body uname pname :
  flags env !! "otype" = Some uname →
  uname ≠ EmptyString →
  flags env !! "pkg" = Some pname →
  args env = [T; loc] →
  packages_Load env loc = (pkg :: pkgs, None) →
  Forall (λ p, Errors p = []) (pkg :: pkgs) →
  FindUnion pkg T = Some s →
  UnionSize s (TypesSizes pkg) = Ok (sz, al) →
  GetImports (UnionFields s) (Types pkg) = Ok imports →
  StringUnion' uname sz (used_alignment al) (UnionFields s) (Types pkg)
  = Ok body →
  generate' env
  = ((fallback al).1,
     inl (header +:+ packageTemplate pname
          +:+ importTemplate (Join imports nl) +:+ body)).
Proof.
  intros Hotype Hne Hpkg Hargs Hload Herrs Hfind Hsize Himports Hbody.
  assert (flag_String env "otype" EmptyString = uname) as Eo
    by (unfold flag_String; by rewrite Hotype).
  assert (flag_String env "pkg" "main" = pname) as Ep
    by (unfold flag_String; by rewrite Hpkg).
  pose proof (generate_buffer header packageTemplate importTemplate
                structTemplate fieldTemplate TypeString
                env T loc pkg pkgs s sz al imports body
                Hargs Hload Herrs Hfind Hsize Himports) as Hgen.
  rewrite Eo, Ep in Hgen. rewrite bool_decide_true in Hgen by done.
  by apply Hgen.
Qed.
(** X21.  [main] does not guard the call of [UnionSize]: when it panics,
    [main] has printed nothing and written no file before it, no text is
    generated, and the run ends in that panic, which the Go runtime reports,
    with exit code 2. *)
Theorem main_layout_panic env T loc pkg pkgs s msg :
  args env = [T; loc] →
  packages_Load env loc = (pkg :: pkgs, None) →
  Forall (λ p, Errors p = []) (pkg :: pkgs) →
  FindUnion pkg T = Some s →
  UnionSize s (TypesSizes pkg) = Panic msg →
  main' env = ([], inr (Crash msg))
  ∧ exit_code (main' env).2 = 2.
Proof.
  intros Hargs Hload Herrs Hfind Hsize.
  assert (generate' env = ([], inr (Crash msg))) as Hgen.
  { unfold generate. rewrite Hargs. simpl.
    rewrite Hload, (PrintErrors_none _ Herrs). simpl.
    by rewrite Hfind, Hsize. }
  unfold main. by rewrite Hgen.
Qed.
End Outcome.

Lemma main_destination_witness :
  exMain namedEnv = ([] ++ [FileWrite "u.go" namedText 438 None], inl ()).
Proof.
  apply (main_destination exHeader exPackage exImport exStruct exField
           exTypeString namedEnv [] namedText namedText).
  - vm_compute. reflexivity.
  - reflexivity.
Defined.

Lemma flag_overrides_witness :
  exGenerate namedEnv = ((fallback 4).1, inl namedText).
Proof.
  apply (flag_overrides exHeader exPackage exImport exStruct exField
           exTypeString namedEnv "Template" "."
           (examplePackage stdSizes) [] exampleTemplate 4 4 []
           namedBody "Overlay" "shapes").
  - vm_compute. reflexivity.
  - discriminate.
  - vm_compute. reflexivity.
  - reflexivity.
  - reflexivity.
  - repeat constructor.
  - reflexivity.
  - vm_compute. reflexivity.
  - reflexivity.
  - vm_compute. reflexivity.
Defined.

Lemma main_layout_panic_witness :
  exMain emptyStructEnv = ([], inr (Crash divide_error))
  ∧ exit_code (exMain emptyStructEnv).2 = 2.
Proof.
  apply (main_layout_panic exHeader exPackage exImport exStruct exField
           exTypeString emptyStructEnv "Empty" "." emptyPackage [] []).
  - reflexivity.
  - reflexivity.
  - repeat constructor.
  - reflexivity.
  - reflexivity.
Defined.

(** ** No wasted padding *)

(** X22.  Under the conditions of the layout result (non-negative sizes,
    positive alignments, a rounded size that fits an int64) the size
    [UnionSize] returns is the least multiple of the maximal alignment that
    is at least the maximal size: it is such a multiple, and every such
    multiple is at least as large. *)
Theorem UnionSize_minimal s lookup M A :
  is_max M (sizes_of lookup s) →
  is_max A (aligns_of lookup s) →
  Forall (λ x, 0 ≤ x) (sizes_of lookup s) →
  Forall (λ x, 0 < x) (aligns_of lookup s) →
  round_up M A ≤ Int64.max_int →
  ∃ sz,
    UnionSize s lookup = Ok (sz, A)
    ∧ M ≤ sz
    ∧ sz `rem` A = 0
    ∧ ∀ k, M ≤ k → k `rem` A = 0 → sz ≤ k.
Proof.
  intros HM HA Hsz Hal Hfit.
  destruct (UnionSize_max_rounded s lookup M A) as (HM0 & HA0 & HU);
    [done..|].
  destruct (round_up_spec M A HM0 HA0) as (Hle & Hr & Hlt).
  exists (round_up M A). split; [done|]. split; [done|]. split; [done|].
  intros k Hk Hrem.
  apply Z.rem_divide in Hrem as [c ->]; [|lia].
  apply Z.rem_divide in Hr as [d Hd]; [|lia].
  rewrite Hd in *.
  assert (d < c + 1) as Hdc by (apply (Z.mul_lt_mono_pos_r A); lia).
  apply Z.mul_le_mono_nonneg_r; lia.
Qed.

Lemma UnionSize_minimal_witness :
  ∃ sz,
    UnionSize oddTemplate stdSizes = Ok (sz, 4)
    ∧ 6 ≤ sz
    ∧ sz `rem` 4 = 0
    ∧ ∀ k, 6 ≤ k → k `rem` 4 = 0 → sz ≤ k.
Proof.
  apply (UnionSize_minimal oddTemplate stdSizes 6 4).
  - apply (bool_decide_unpack _). vm_compute. exact I.
  - apply (bool_decide_unpack _). vm_compute. exact I.
  - apply (bool_decide_unpack _). vm_compute. exact I.
  - apply (bool_decide_unpack _). vm_compute. exact I.
  - vm_compute. discriminate.
Defined.
